(** * cherry sessions: a shallow embedding of package cherrySession

    Two source files are embedded, each in a module of its own:

    - [NetSession], from net/session/session.go: the session that hands
      binding and its close processing over to a Component, together with
      the process-wide identifier counter behind NextSID;
    - [ConnSession], from the second session file of the package: the
      session that owns its net.Conn, a status, a running flag, an
      unbuffered send channel, listener slices, the reader loop
      readPackets and the writer loop of Start.

    Conventions.  Go's int and int64 values are integers of [Z]; the one
    place where arithmetic is done on them (the atomic increment of the
    counter) has its 64-bit wrap-around written out.  A Go func value is
    either nil or a closure, which the model keeps as an opaque identity
    ([Func]); calling one is recorded as an event, and what a callback
    answers is supplied by the environment.  Calls on collaborators that
    live outside these files (the net.Conn, the session component, the
    network entity) are recorded in a trace of events, in program order.
    Logging has no effect on a session and is left out. *)

From Stdlib Require Import ZArith List String Bool Lia.
From Stdlib Require Import Init.Byte.
Import ListNotations.
Open Scope Z_scope.

(** ** Shared vocabulary *)

Module facade.
Definition SID := Z.          (* an int64 *)
Definition UID := Z.          (* an int64 *)
Definition FrontendId := string.
End facade.

Definition bytes := list byte.

(** Error values.  [IllegalUID] is the package variable of the
    connection-owning file, [SessionIllegalUID] the one the delegating file
    takes from cherryError; [Failure] stands for any error a collaborator
    reports (a failed read or write, a rejected message). *)
Inductive Error :=
| IllegalUID
| SessionIllegalUID
| Failure (msg : string).

(** A func value: nil, or a closure known by its identity. *)
Inductive Func :=
| nilFunc
| closure (id : nat).

Definition is_nil (f : Func) : bool :=
  match f with nilFunc => true | closure _ => false end.

(** How a Go function call ends, or fails to. *)
Inductive Outcome :=
| Returned
| Blocked
| Panicked (msg : string).

Definition nil_call : string := "invalid memory address or nil pointer dereference".

(** Two's-complement int64: the value an int64 variable holds after an
    arithmetic result [z] is stored in it. *)
Definition wrap64 (z : Z) : Z := (z + 2 ^ 63) mod 2 ^ 64 - 2 ^ 63.

Definition max_int64 : Z := 2 ^ 63 - 1.
Definition min_int64 : Z := - 2 ^ 63.

(** ** net/session/session.go *)

Module NetSession.

(** atomic.AddInt64(&nextSessionId, 1): the new value of the counter is
    both stored and returned.  The first component is the identifier
    handed out, the second the counter afterwards. *)
Definition NextSID (nextSessionId : Z) : facade.SID * Z :=
  let v := wrap64 (nextSessionId + 1) in (v, v).

(** The counter is a package variable, zero when the process starts;
    [sid_of_call n] is what the n-th call of the process returns and
    [counter_after n] the counter once n calls have been made. *)
Definition counter_after (n : N) : Z :=
  N.iter n (fun c => snd (NextSID c)) 0.

Definition sid_of_call (n : N) : facade.SID :=
  fst (NextSID (counter_after (N.pred n))).

(** A listener of the component: func(session) bool.  The answer decides
    whether the chain goes on. *)
Record Listener := { lid : nat; goes_on : bool }.

Record Component := {
  onCreate : list Listener;
  onClose : list Listener
}.

Record Session := {
  has_entity : bool;                 (* entity != nil *)
  sid : facade.SID;
  uid : facade.UID;
  frontendId : facade.FrontendId;
  component : option Component
}.

Inductive Event :=
| Listen (id : nat)                  (* listener(session) *)
| ComponentBind (sid : facade.SID) (uid : facade.UID)
| ComponentUnbind (sid : facade.SID)
| EntityClose.

(** for _, listener := range ls { if listener(s) == false { break } } *)
Fixpoint chain (ls : list Listener) : list Event :=
  match ls with
  | [] => []
  | l :: rest => Listen (lid l) :: (if goes_on l then chain rest else [])
  end.

Definition NewSession (sid : facade.SID) (frontendId : facade.FrontendId)
    (has_entity : bool) (component : option Component)
  : Session * list Event :=
  let session := {| has_entity := has_entity; sid := sid; uid := 0;
                    frontendId := frontendId; component := component |} in
  (session,
   match component with
   | Some c => chain (onCreate c)
   | None => []
   end).

Definition SID (s : Session) : facade.SID := sid s.
Definition UID (s : Session) : facade.UID := uid s.
Definition FrontendId (s : Session) : facade.FrontendId := frontendId s.
Definition IsBind (s : Session) : bool := 0 <? uid s.

Section Delegation.
(** Component.Bind is not part of these sources: what it answers, and
    what it does to the session it is asked about, is left open. *)
Variable component_Bind : facade.SID -> facade.UID -> Session -> option Error * Session.

Definition Bind (uid : facade.UID) (s : Session)
  : option Error * Session * list Event :=
  if uid <? 1 then (Some SessionIllegalUID, s, [])
  else let (err, s') := component_Bind (sid s) uid s in
       (err, s', [ComponentBind (sid s) uid]).
End Delegation.

Definition Unbind (s : Session) : list Event := [ComponentUnbind (sid s)].

(** s.entity.Close(): a call through a nil interface value panics. *)
Definition Close (s : Session) : Outcome * list Event :=
  if has_entity s then (Returned, [EntityClose]) else (Panicked nil_call, []).

Definition OnCloseProcess (s : Session) : list Event :=
  match component s with
  | Some c => chain (onClose c)
  | None => []
  end ++ Unbind s.

(** *** Calls on the network entity

    What the session asks of its facade.INetwork value.  The values sent
    with RPC, Push and Response are opaque to the session and are kept as
    identities.  What the entity answers is an argument of each method. *)
Inductive EntityCall :=
| EntitySendRaw (b : bytes)
| EntityRPC (route : string) (v : nat)
| EntityPush (route : string) (v : nat)
| EntityResponse (mid : Z) (v : nat)
| EntityKick (reason : string).

Definition SendRaw (answer : option Error) (b : bytes) (s : Session)
  : Outcome * option Error * list EntityCall :=
  if negb (has_entity s) then (Returned, None, [])
  else (Returned, answer, [EntitySendRaw b]).

Definition RPC (answer : option Error) (route : string) (v : nat) (s : Session)
  : Outcome * option Error * list EntityCall :=
  if has_entity s then (Returned, answer, [EntityRPC route v])
  else (Panicked nil_call, None, []).

Definition Push (answer : option Error) (route : string) (v : nat) (s : Session)
  : Outcome * option Error * list EntityCall :=
  if has_entity s then (Returned, answer, [EntityPush route v])
  else (Panicked nil_call, None, []).

Definition Response (answer : option Error) (mid : Z) (v : nat) (s : Session)
  : Outcome * option Error * list EntityCall :=
  if has_entity s then (Returned, answer, [EntityResponse mid v])
  else (Panicked nil_call, None, []).

(** The third component is what the call of s.Close() does, when it is
    reached. *)
Definition Kick (answer : option Error) (reason : string) (close : bool)
    (s : Session) : Outcome * list EntityCall * list Event :=
  if has_entity s then
    match answer with
    | Some _ => (Returned, [EntityKick reason], [])
    | None =>
        if close then
          let (o, evs) := Close s in (o, [EntityKick reason], evs)
        else (Returned, [EntityKick reason], [])
    end
  else (Panicked nil_call, [], []).

(** [addr] is s.entity.RemoteAddr().String(). *)
Definition RemoteAddress (addr : string) (s : Session) : string :=
  if negb (has_entity s) then EmptyString else addr.

(** The identifiers of the listeners of a chain. *)
Definition lids (ls : list Listener) : list nat := map lid ls.

(** A component to try things on: its second create listener and its first
    close listener answer false. *)
Definition guarded : Component :=
  {| onCreate := [ {| lid := 1; goes_on := true |};
                   {| lid := 2; goes_on := false |};
                   {| lid := 3; goes_on := true |} ];
     onClose := [ {| lid := 4; goes_on := false |};
                  {| lid := 5; goes_on := true |} ] |}.

Definition unbinds (tr : list Event) : nat :=
  List.length (filter (fun e => match e with ComponentUnbind _ => true | _ => false end) tr).

End NetSession.

(** ** The connection-owning session *)

Module ConnSession.

(** Init = iota, WaitAck, Working, Closed. *)
Module Const.
Definition Init : Z := 0.
Definition WaitAck : Z := 1.
Definition Working : Z := 2.
Definition Closed : Z := 3.
End Const.

(** What the session does to its collaborators, in program order. *)
Inductive Event :=
| ConnRead (got : bytes) (err : option Error)   (* s.conn.Read(buf) *)
| ConnWrite (msg : bytes) (err : option Error)  (* s.conn.Write(msg) *)
| ConnClose                                     (* s.conn.Close() *)
| Dispatch (l : nat) (view : bytes)             (* s.onMessageListener(buf[:n]) *)
| RunOnClose (l : nat)                          (* a close listener is called *)
| RunOnError (l : nat)                          (* an error listener is called *)
| Remove (sid : facade.SID).                    (* s.sessionComponent.Remove(s.sid) *)

(** The struct.  The connection and the network entity are handles that no
    method assigns after construction; what is done through the connection is
    in the trace.  [sessionComponent] is the pointer, nil or not.  [sendChan]
    is the unbuffered channel: the payloads senders have handed to it that
    the writer loop has not yet received, oldest first. *)
Record Session := {
  status : Z;
  running : bool;
  sid : facade.SID;
  uid : facade.UID;
  frontendId : facade.FrontendId;
  sessionComponent : option nat;
  lastTime : Z;
  sendChan : list bytes;
  onCloseListeners : list Func;
  onErrorListeners : list Func;
  onMessageListener : Func
}.

Definition set_status (v : Z) (s : Session) : Session :=
  {| status := v; running := running s; sid := sid s; uid := uid s;
     frontendId := frontendId s; sessionComponent := sessionComponent s;
     lastTime := lastTime s; sendChan := sendChan s;
     onCloseListeners := onCloseListeners s;
     onErrorListeners := onErrorListeners s;
     onMessageListener := onMessageListener s |}.

Definition set_running (v : bool) (s : Session) : Session :=
  {| status := status s; running := v; sid := sid s; uid := uid s;
     frontendId := frontendId s; sessionComponent := sessionComponent s;
     lastTime := lastTime s; sendChan := sendChan s;
     onCloseListeners := onCloseListeners s;
     onErrorListeners := onErrorListeners s;
     onMessageListener := onMessageListener s |}.

Definition set_uid (v : facade.UID) (s : Session) : Session :=
  {| status := status s; running := running s; sid := sid s; uid := v;
     frontendId := frontendId s; sessionComponent := sessionComponent s;
     lastTime := lastTime s; sendChan := sendChan s;
     onCloseListeners := onCloseListeners s;
     onErrorListeners := onErrorListeners s;
     onMessageListener := onMessageListener s |}.

Definition set_sendChan (v : list bytes) (s : Session) : Session :=
  {| status := status s; running := running s; sid := sid s; uid := uid s;
     frontendId := frontendId s; sessionComponent := sessionComponent s;
     lastTime := lastTime s; sendChan := v;
     onCloseListeners := onCloseListeners s;
     onErrorListeners := onErrorListeners s;
     onMessageListener := onMessageListener s |}.

Definition set_onCloseListeners (v : list Func) (s : Session) : Session :=
  {| status := status s; running := running s; sid := sid s; uid := uid s;
     frontendId := frontendId s; sessionComponent := sessionComponent s;
     lastTime := lastTime s; sendChan := sendChan s;
     onCloseListeners := v;
     onErrorListeners := onErrorListeners s;
     onMessageListener := onMessageListener s |}.

Definition set_onErrorListeners (v : list Func) (s : Session) : Session :=
  {| status := status s; running := running s; sid := sid s; uid := uid s;
     frontendId := frontendId s; sessionComponent := sessionComponent s;
     lastTime := lastTime s; sendChan := sendChan s;
     onCloseListeners := onCloseListeners s;
     onErrorListeners := v;
     onMessageListener := onMessageListener s |}.

Definition set_onMessageListener (v : Func) (s : Session) : Session :=
  {| status := status s; running := running s; sid := sid s; uid := uid s;
     frontendId := frontendId s; sessionComponent := sessionComponent s;
     lastTime := lastTime s; sendChan := sendChan s;
     onCloseListeners := onCloseListeners s;
     onErrorListeners := onErrorListeners s;
     onMessageListener := v |}.

(** The two closures NewSession registers; both only log. *)
Definition logOnClosed : Func := closure 0.
Definition logOnError : Func := closure 1.

(** [now] is time.Now().Unix(). *)
Definition NewSession (sid : facade.SID) (sc : option nat) (now : Z) : Session :=
  let session :=
    {| status := Const.Init; running := false; sid := sid; uid := 0;
       frontendId := EmptyString; sessionComponent := sc; lastTime := now;
       sendChan := []; onCloseListeners := []; onErrorListeners := [];
       onMessageListener := nilFunc |} in
  let session :=
    set_onCloseListeners (onCloseListeners session ++ [logOnClosed]) session in
  let session :=
    set_onErrorListeners (onErrorListeners session ++ [logOnError]) session in
  session.

Definition SID (s : Session) : facade.SID := sid s.
Definition UID (s : Session) : facade.UID := uid s.
Definition FrontendId (s : Session) : facade.FrontendId := frontendId s.
Definition SetStatus (status : Z) (s : Session) : Session := set_status status s.
Definition Status (s : Session) : Z := status s.

Definition Bind (uid : facade.UID) (s : Session) : option Error * Session :=
  if uid <? 1 then (Some IllegalUID, s)
  else (None, set_uid uid s).

Definition OnClose (listener : Func) (s : Session) : Session :=
  if negb (is_nil listener)
  then set_onCloseListeners (onCloseListeners s ++ [listener]) s
  else s.

Definition OnError (listener : Func) (s : Session) : Session :=
  if negb (is_nil listener)
  then set_onErrorListeners (onErrorListeners s ++ [listener]) s
  else s.

Definition OnMessage (listener : Func) (s : Session) : Session :=
  if negb (is_nil listener)
  then set_onMessageListener listener s
  else s.

(** [s.sendChan <- msg] hands the payload to the channel; the call returns
    once the writer loop has received it. *)
Definition Send (msg : bytes) (s : Session) : option Error * Session :=
  if negb (running s) then (None, s)
  else (None, set_sendChan (sendChan s ++ [msg]) s).

(** SendBatch as far as the call gets by itself.  On a running session the
    Send of a payload waits in the channel until the writer loop receives the
    payload, and the loop over the batch goes on only then: the call stops
    at the first payload it hands over.  On a session that is not running
    every Send returns at once and the loop runs through. *)
Fixpoint SendBatch (batchMsg : list bytes) (s : Session) : Session :=
  match batchMsg with
  | [] => s
  | msg :: rest =>
      if running s then snd (Send msg s)
      else SendBatch rest (snd (Send msg s))
  end.

(** What the call still has to send once the Send it waits in has returned;
    [None] when the call has returned. *)
Fixpoint SendBatch_rest (batchMsg : list bytes) (s : Session)
  : option (list bytes) :=
  match batchMsg with
  | [] => None
  | msg :: rest =>
      if running s then Some rest
      else SendBatch_rest rest (snd (Send msg s))
  end.

Definition Closed (s : Session) : Session * list Event :=
  let s := set_status Const.Closed s in
  let s := set_running false s in
  match sessionComponent s with
  | Some _ => (s, [Remove (sid s)])
  | None => (s, [])
  end.

(** *** Other execution contexts

    The fields of a session are plain memory shared with whoever holds the
    pointer: while a loop of the session runs, another goroutine may call
    any of its methods.  [Call] lists the methods without a loop of their
    own over the connection and [call] runs one of them, as far as it gets
    by itself: a Send on a running session gets to the channel and waits
    there for the writer loop. *)
Inductive Call :=
| CallSetStatus (status : Z)
| CallBind (uid : facade.UID)
| CallOnClose (listener : Func)
| CallOnError (listener : Func)
| CallOnMessage (listener : Func)
| CallSend (msg : bytes)
| CallSendBatch (batchMsg : list bytes)
| CallClosed.

Definition call (c : Call) (s : Session) : Session * list Event :=
  match c with
  | CallSetStatus v => (SetStatus v s, [])
  | CallBind u => (snd (Bind u s), [])
  | CallOnClose l => (OnClose l s, [])
  | CallOnError l => (OnError l s, [])
  | CallOnMessage l => (OnMessage l s, [])
  | CallSend m => (snd (Send m s), [])
  | CallSendBatch ms => (SendBatch ms s, [])
  | CallClosed => Closed s
  end.

(** *** The reader loop *)

(** for _, listener := range ls { listener(s) }: every listener is called
    in slice order; calling a nil func panics on the spot.  The flag says
    whether the loop ran to its end. *)
Fixpoint call_all (ev : nat -> Event) (ls : list Func) : list Event * bool :=
  match ls with
  | [] => ([], true)
  | nilFunc :: _ => ([], false)
  | closure l :: rest =>
      let (evs, ok) := call_all ev rest in (ev l :: evs, ok)
  end.

(** n, err := s.conn.Read(buf), for a connection that has [data] to
    deliver: it copies as much of it as the buffer takes to the front of the
    buffer and leaves the rest of the buffer as it was. *)
Definition conn_Read (data buf : bytes) : nat * bytes :=
  let n := Nat.min (List.length data) (List.length buf) in
  (n, firstn n data ++ skipn n buf).

(** One turn of the body of [for s.running { ... }].  [data] and [err] are
    what the read delivers and reports, [answer] is what the message
    listener returns if it is called.  The turn either goes back to the loop
    condition or leaves the function. *)
Inductive Turn :=
| Continue (s : Session) (buf : bytes) (evs : list Event)
| Leave (o : Outcome) (s : Session) (evs : list Event).

Definition read_turn (data : bytes) (err answer : option Error)
    (buf : bytes) (s : Session) : Turn :=
  let (n, buf) := conn_Read data buf in
  let read := ConnRead (firstn n data) err in
  match err with
  | Some _ =>
      let (evs, ok) := call_all RunOnError (onErrorListeners s) in
      if ok then Leave Returned (set_running false s) (read :: evs)
      else Leave (Panicked nil_call) s (read :: evs)
  | None =>
      if (n <? 1)%nat then Continue s buf [read]
      else
        match onMessageListener s with
        | nilFunc => Leave (Panicked nil_call) s [read]
        | closure l =>
            let view := firstn n buf in
            match answer with
            | Some _ => Leave Returned s [read; Dispatch l view]
            | None => Continue s buf [read; Dispatch l view]
            end
        end
  end.

(** The deferred function: it runs when readPackets returns and when it
    panics after the defer statement.  [o] is how the body ended. *)
Definition deferred (o : Outcome) (s : Session) (tr : list Event)
  : Outcome * Session * list Event :=
  let (evs, ok) := call_all RunOnClose (onCloseListeners s) in
  if ok then (o, s, tr ++ evs ++ [ConnClose])
  else (Panicked nil_call, s, tr ++ evs).

(** What happens while readPackets runs: either the reader gets to its next
    read, or another context calls a method of the session first. *)
Inductive RTick :=
| Rd (data : bytes) (err answer : option Error)
| Other (c : Call).

(** The loop.  With nothing left to happen the reader is either past its
    loop (running is false) or waits in a read that has not returned. *)
Fixpoint read_loop (script : list RTick) (buf : bytes) (s : Session)
    (tr : list Event) : Outcome * Session * list Event :=
  match script with
  | [] => if running s then (Blocked, s, tr) else (Returned, s, tr)
  | Other c :: rest =>
      let (s', evs) := call c s in read_loop rest buf s' (tr ++ evs)
  | Rd data err answer :: rest =>
      if running s then
        match read_turn data err answer buf s with
        | Continue s' buf' evs => read_loop rest buf' s' (tr ++ evs)
        | Leave o s' evs => (o, s', tr ++ evs)
        end
      else (Returned, s, tr)
  end.

Definition not_set : string := "onMessageListener() not set.".

Definition make (n : nat) : bytes := repeat x00 n.

Definition readPackets (readSize : nat) (script : list RTick) (s : Session)
  : Outcome * Session * list Event :=
  match onMessageListener s with
  | nilFunc => (Panicked not_set, s, [])
  | closure _ =>
      let '(o, s', tr) := read_loop script (make readSize) s [] in
      match o with
      | Blocked => (Blocked, s', tr)
      | _ => deferred o s' tr
      end
  end.

(** *** Start: the writer loop, with the reader and the senders beside it *)

(** The goroutine started by [go s.readPackets(2048)]: not yet scheduled,
    at the test of its loop, inside conn.Read (the test is behind it), or
    gone. *)
Inductive Reader :=
| Spawned (readSize : nat)
| Testing (buf : bytes)
| Reading (buf : bytes)
| Gone.

(** The loop of Start itself: at the test of [for s.running], waiting in
    the select for a payload, or holding a payload it has received and not
    yet written. *)
Inductive Writer :=
| AtTest
| InSelect
| Writing (msg : bytes).

(** Start and what runs beside it.  [waiting] has, for each payload in the
    send channel and in the same order, what the sender waiting behind it
    will send next once that payload is received (nothing for a plain
    Send); [ready] are the batches of the senders that have been released
    and have not yet got to their next Send. *)
Record World := {
  reader : Reader;
  writer : Writer;
  waiting : list (list bytes);
  ready : list (list bytes);
  sess : Session;
  trace : list Event
}.

(** What a call that waits in the channel will send afterwards; [None] for
    a call that has returned. *)
Definition blocked_rest (c : Call) (s : Session) : option (list bytes) :=
  match c with
  | CallSend _ => if running s then Some [] else None
  | CallSendBatch batchMsg => SendBatch_rest batchMsg s
  | _ => None
  end.

Definition pad (n : nat) (conts : list (list bytes)) : list (list bytes) :=
  conts ++ repeat [] (n - List.length conts).

(** A sender joins the channel behind the payloads in [queue]. *)
Definition enqueue (queue : list bytes) (rest : option (list bytes))
    (conts : list (list bytes)) : list (list bytes) :=
  match rest with
  | None => conts
  | Some r => pad (List.length queue) conts ++ [r]
  end.

(** Another context calls a method. *)
Definition other_step (c : Call) (w : World) : Outcome * World :=
  let (s', evs) := call c (sess w) in
  (Blocked,
   {| reader := reader w; writer := writer w;
      waiting := enqueue (sendChan (sess w)) (blocked_rest c (sess w)) (waiting w);
      ready := ready w; sess := s'; trace := trace w ++ evs |}).

(** The released sender number [i] gets to its next Send. *)
Definition sender_step (i : nat) (w : World) : Outcome * World :=
  match nth_error (ready w) i with
  | None => (Blocked, w)
  | Some batchMsg =>
      (Blocked,
       {| reader := reader w; writer := writer w;
          waiting := enqueue (sendChan (sess w))
                       (SendBatch_rest batchMsg (sess w)) (waiting w);
          ready := firstn i (ready w) ++ skipn (S i) (ready w);
          sess := SendBatch batchMsg (sess w); trace := trace w |})
  end.

(** The reader leaves readPackets: the deferred function runs.  A panic
    ends the process, anything else only the goroutine. *)
Definition leave (o : Outcome) (s : Session) (evs : list Event) (w : World)
  : Outcome * World :=
  let '(o', s', tr) := deferred o s evs in
  (match o' with Panicked msg => Panicked msg | _ => Blocked end,
   {| reader := Gone; writer := writer w; waiting := waiting w;
      ready := ready w; sess := s'; trace := trace w ++ tr |}).

(** The reader goroutine takes its next step: the entry of readPackets, the
    test of the loop, or the return of the read it waits in ([data], [err])
    with the rest of the loop body. *)
Definition reader_step (data : bytes) (err answer : option Error) (w : World)
  : Outcome * World :=
  match reader w with
  | Gone => (Blocked, w)
  | Spawned readSize =>
      match onMessageListener (sess w) with
      | nilFunc =>
          (Panicked not_set,
           {| reader := Gone; writer := writer w; waiting := waiting w;
              ready := ready w; sess := sess w; trace := trace w |})
      | closure _ =>
          (Blocked,
           {| reader := Testing (make readSize); writer := writer w;
              waiting := waiting w; ready := ready w; sess := sess w;
              trace := trace w |})
      end
  | Testing buf =>
      if running (sess w) then
        (Blocked,
         {| reader := Reading buf; writer := writer w; waiting := waiting w;
            ready := ready w; sess := sess w; trace := trace w |})
      else leave Returned (sess w) [] w
  | Reading buf =>
      match read_turn data err answer buf (sess w) with
      | Continue s' buf' evs =>
          (Blocked,
           {| reader := Testing buf'; writer := writer w; waiting := waiting w;
              ready := ready w; sess := s'; trace := trace w ++ evs |})
      | Leave o s' evs => leave o s' evs w
      end
  end.

(** The loop of Start takes its next step: the test of [for s.running],
    the receive of the select (it waits while no sender is there, whatever
    the flag says by then), or the write of the payload received, with
    Closed() behind a failed write ([werr] is what conn.Write reports). *)
Definition writer_step (werr : option Error) (w : World) : Outcome * World :=
  match writer w with
  | AtTest =>
      if running (sess w) then
        (Blocked,
         {| reader := reader w; writer := InSelect; waiting := waiting w;
            ready := ready w; sess := sess w; trace := trace w |})
      else (Returned, w)
  | InSelect =>
      match sendChan (sess w) with
      | [] => (Blocked, w)
      | msg :: queue =>
          let cont := hd [] (waiting w) in
          (Blocked,
           {| reader := reader w; writer := Writing msg;
              waiting := tl (waiting w);
              ready := match cont with
                       | [] => ready w
                       | _ :: _ => ready w ++ [cont]
                       end;
              sess := set_sendChan queue (sess w); trace := trace w |})
      end
  | Writing msg =>
      let wrote := ConnWrite msg werr in
      match werr with
      | Some _ =>
          let (s', evs) := Closed (sess w) in
          (Blocked,
           {| reader := reader w; writer := AtTest; waiting := waiting w;
              ready := ready w; sess := s'; trace := trace w ++ wrote :: evs |})
      | None =>
          (Blocked,
           {| reader := reader w; writer := AtTest; waiting := waiting w;
              ready := ready w; sess := sess w; trace := trace w ++ [wrote] |})
      end
  end.

(** What happens while Start runs: the reader goroutine takes a step, the
    loop of Start takes a step, another context calls a method, or a
    released sender goes on with its batch. *)
Inductive STick :=
| SReader (data : bytes) (err answer : option Error)
| SWriter (werr : option Error)
| SOther (c : Call)
| SSender (i : nat).

Definition step (t : STick) (w : World) : Outcome * World :=
  match t with
  | SReader data err answer => reader_step data err answer w
  | SWriter werr => writer_step werr w
  | SOther c => other_step c w
  | SSender i => sender_step i w
  end.

(** Start goes on until its loop test fails or the process panics; while
    neither has happened it has not returned. *)
Fixpoint write_loop (script : list STick) (w : World) : Outcome * World :=
  match script with
  | [] => (Blocked, w)
  | t :: rest =>
      match step t w with
      | (Blocked, w') => write_loop rest w'
      | (o, w') => (o, w')
      end
  end.

Definition Start (script : list STick) (s : Session)
  : Outcome * Reader * Session * list Event :=
  let s := set_running true s in
  let (o, w) :=
    write_loop script
      {| reader := Spawned 2048; writer := AtTest; waiting := [];
         ready := []; sess := s; trace := [] |} in
  (o, reader w, sess w, trace w).

(** *** Operations on a session, and sequences of them *)

Inductive Op :=
| Do (c : Call)
| DoStart (script : list STick)
| DoReadPackets (readSize : nat) (script : list RTick).

Definition exec (o : Op) (s : Session) : Session * list Event :=
  match o with
  | Do c => call c s
  | DoStart script => let '(_, _, s', tr) := Start script s in (s', tr)
  | DoReadPackets readSize script =>
      let '(_, s', tr) := readPackets readSize script s in (s', tr)
  end.

Fixpoint exec_all (ops : list Op) (s : Session) : Session * list Event :=
  match ops with
  | [] => (s, [])
  | o :: rest =>
      let (s1, tr1) := exec o s in
      let (s2, tr2) := exec_all rest s1 in
      (s2, tr1 ++ tr2)
  end.

(** *** Vocabulary of the statements *)

(** Which calls a script or a sequence of operations is made of. *)
Definition rtick_within (allowed : Call -> bool) (t : RTick) : bool :=
  match t with
  | Other c => allowed c
  | Rd _ _ _ => true
  end.

Definition stick_within (allowed : Call -> bool) (t : STick) : bool :=
  match t with
  | SOther c => allowed c
  | _ => true
  end.

Definition op_within (allowed : Call -> bool) (o : Op) : bool :=
  match o with
  | Do c => allowed c
  | DoStart script => forallb (stick_within allowed) script
  | DoReadPackets _ script => forallb (rtick_within allowed) script
  end.

Definition any_call (c : Call) : bool := true.

Definition not_SetStatus (c : Call) : bool :=
  match c with
  | CallSetStatus _ => false
  | _ => true
  end.

(** No nil entry in either listener slice. *)
Definition no_nil (ls : list Func) : Prop := Forall (fun f => is_nil f = false) ls.

Definition listeners_ok (s : Session) : Prop :=
  no_nil (onCloseListeners s) /\ no_nil (onErrorListeners s).

(** The identities of the closures of a slice, in slice order. *)
Definition ids (ls : list Func) : list nat :=
  flat_map (fun f => match f with nilFunc => [] | closure l => [l] end) ls.

(** Readings of a trace. *)
Definition removes (tr : list Event) : nat :=
  List.length (filter (fun e => match e with Remove _ => true | _ => false end) tr).

Definition close_runs (tr : list Event) : list nat :=
  flat_map (fun e => match e with RunOnClose l => [l] | _ => [] end) tr.

Definition conn_closes (tr : list Event) : nat :=
  List.length (filter (fun e => match e with ConnClose => true | _ => false end) tr).

(** The payloads of the reads that succeeded with at least one byte, and
    the views the message listener was called with, both in trace order. *)
Definition delivered (tr : list Event) : list bytes :=
  flat_map (fun e => match e with
                     | ConnRead (b :: got) None => [b :: got]
                     | _ => []
                     end) tr.

Definition dispatched (tr : list Event) : list bytes :=
  flat_map (fun e => match e with Dispatch _ view => [view] | _ => [] end) tr.

Definition reads (tr : list Event) : nat :=
  List.length (filter (fun e => match e with ConnRead _ _ => true | _ => false end) tr).

(** What the connection has for the reads of a script, read by read, and
    whether a payload has a byte at all. *)
Definition offered (script : list RTick) : list bytes :=
  flat_map (fun t => match t with Rd data _ _ => [data] | Other _ => [] end)
           script.

Definition some_bytes (b : bytes) : bool :=
  match b with
  | [] => false
  | _ :: _ => true
  end.

(** The events of the loop proper: reads that succeed, calls of the
    message listener, and what other contexts do meanwhile.  A failed read,
    a listener run and the closing of the connection are not among them. *)
Definition loop_event (e : Event) : bool :=
  match e with
  | ConnRead _ None => true
  | Dispatch _ _ => true
  | Remove _ => true
  | _ => false
  end.

Definition turn_events (t : Turn) : list Event :=
  match t with
  | Continue _ _ evs => evs
  | Leave _ _ evs => evs
  end.

(** The cleanup has run at most once: the connection was closed at most
    once, the close listeners called so far are the first of those now
    registered, in order, and nothing of the kind has happened while the
    reader goroutine is still there. *)
Definition cleaned_once (r : Reader) (s : Session) (tr : list Event) : Prop :=
  (conn_closes tr <= 1)%nat /\
  (exists later, ids (onCloseListeners s) = close_runs tr ++ later) /\
  (r <> Gone -> close_runs tr = [] /\ conn_closes tr = 0%nat).

(** The payloads handed to conn.Write, in trace order. *)
Definition written (tr : list Event) : list bytes :=
  flat_map (fun e => match e with ConnWrite msg _ => [msg] | _ => [] end) tr.

(** The payloads the reads of a trace delivered, failed reads included. *)
Definition read_payloads (tr : list Event) : list bytes :=
  flat_map (fun e => match e with ConnRead got _ => [got] | _ => [] end) tr.

(** The listeners the message listener was called as. *)
Definition dispatch_targets (tr : list Event) : list nat :=
  flat_map (fun e => match e with Dispatch l _ => [l] | _ => [] end) tr.

(** The events after which the running flag is false: a failed read, a
    failed write, and the removal Closed asks of the component. *)
Definition stops (e : Event) : bool :=
  match e with
  | ConnRead _ (Some _) => true
  | ConnWrite _ (Some _) => true
  | Remove _ => true
  | _ => false
  end.

(** Calling a registration method once for each element of a list. *)
Definition register_all (reg : Func -> Session -> Session) (ls : list Func)
    (s : Session) : Session :=
  fold_left (fun s l => reg l s) ls s.

Definition non_nil (ls : list Func) : list Func :=
  filter (fun f => negb (is_nil f)) ls.

(** Binding one uid after the other. *)
Definition bind_all (uids : list facade.UID) (s : Session) : Session :=
  fold_left (fun s u => snd (Bind u s)) uids s.

(** Kinds of calls and of ticks. *)
Definition not_Bind (c : Call) : bool :=
  match c with
  | CallBind _ => false
  | _ => true
  end.

Definition not_OnMessage (c : Call) : bool :=
  match c with
  | CallOnMessage _ => false
  | _ => true
  end.

Definition is_Rd (t : RTick) : bool :=
  match t with
  | Rd _ _ _ => true
  | Other _ => false
  end.

Definition is_empty_read (t : RTick) : bool :=
  match t with
  | Rd [] None _ => true
  | _ => false
  end.

Definition is_failed_read (t : RTick) : bool :=
  match t with
  | Rd _ (Some _) _ => true
  | _ => false
  end.

(** What a buffer of [n] bytes lets through: a read delivers at most [n]
    bytes, and a view has at least one byte and at most [n]. *)
Definition within (n : nat) (e : Event) : Prop :=
  match e with
  | ConnRead got _ => (List.length got <= n)%nat
  | Dispatch _ view => (1 <= List.length view <= n)%nat
  | _ => True
  end.

(** The events that follow the first event of a kind. *)
Fixpoint after (p : Event -> bool) (tr : list Event) : list Event :=
  match tr with
  | [] => []
  | e :: rest => if p e then rest else after p rest
  end.

Definition failed_read (e : Event) : bool :=
  match e with
  | ConnRead _ (Some _) => true
  | _ => false
  end.

(** The events of the way out: listener calls and the closing of the
    connection. *)
Definition cleanup_event (e : Event) : bool :=
  match e with
  | RunOnError _ => true
  | RunOnClose _ => true
  | ConnClose => true
  | _ => false
  end.

Definition failed_write (e : Event) : bool :=
  match e with
  | ConnWrite _ (Some _) => true
  | _ => false
  end.

(** Events that are no traffic on the connection: neither a read, nor a
    write, nor a message handed to the listener. *)
Definition no_io (e : Event) : bool :=
  match e with
  | ConnRead _ _ => false
  | ConnWrite _ _ => false
  | Dispatch _ _ => false
  | _ => true
  end.

Definition not_Start (o : Op) : bool :=
  match o with
  | DoStart _ => false
  | _ => true
  end.

(** The payloads the Send and SendBatch calls of a script carry. *)
Definition call_payloads (c : Call) : list bytes :=
  match c with
  | CallSend msg => [msg]
  | CallSendBatch batchMsg => batchMsg
  | _ => []
  end.


(** The payload the loop of Start has received and not yet written. *)
Definition in_hand (w : Writer) : list bytes :=
  match w with
  | Writing msg => [msg]
  | _ => []
  end.

(** What is still to come once the running flag is false: the write of a
    loop that is past its test, and the read the reader waits in. *)
Definition pending_writes (w : Writer) : nat :=
  match w with
  | AtTest => 0
  | _ => 1
  end.

Definition pending_reads (r : Reader) : nat :=
  match r with
  | Reading _ => 1
  | _ => 0
  end.

(** Steps that offer no payload to the channel. *)
Definition no_send (t : STick) : bool :=
  match t with
  | SOther c => match call_payloads c with [] => true | _ :: _ => false end
  | _ => true
  end.

(** A session to try things on: session 7 of a component, created at time
    100, with one close listener of its own and a message listener. *)
Definition sample : Session :=
  OnMessage (closure 9) (OnClose (closure 5) (NewSession 7 (Some 0%nat) 100)).

End ConnSession.

(** * Properties *)

Import ConnSession.

(** ** The send channel *)

Lemma set_sendChan_same s : set_sendChan (sendChan s) s = s.
Proof. destruct s; reflexivity. Qed.

(** SendBatch touches the send channel and nothing else. *)
Lemma SendBatch_queues batchMsg :
  forall s, exists q, SendBatch batchMsg s = set_sendChan q s.
Proof.
  induction batchMsg as [|msg rest IH]; intros s; simpl.
  - exists (sendChan s). now rewrite set_sendChan_same.
  - unfold Send. destruct (running s); simpl; [eauto|apply IH].
Qed.

(** ** What a loop of the session keeps

    A property of sessions that the short methods keep is kept by the
    reader loop, by Start and by any sequence of operations: the loops
    change a session only through [set_running], [set_sendChan], [Closed]
    and the calls other contexts make meanwhile. *)
Section Keeps.

Variable P : Session -> Prop.
Variable allowed : Call -> bool.

Hypothesis P_call : forall c s, allowed c = true -> P s -> P (fst (call c s)).
Hypothesis P_running : forall b s, P s -> P (set_running b s).
Hypothesis P_sendChan : forall q s, P s -> P (set_sendChan q s).
Hypothesis P_Closed : forall s, P s -> P (fst (Closed s)).

Lemma read_turn_keeps data err answer buf s :
  P s ->
  match read_turn data err answer buf s with
  | Continue s' _ _ => P s'
  | Leave _ s' _ => P s'
  end.
Proof.
  intros HP. unfold read_turn.
  destruct (conn_Read data buf) as [n buf'].
  destruct err as [e|].
  - destruct (call_all RunOnError (onErrorListeners s)) as [evs [|]]; auto.
  - destruct (n <? 1)%nat; auto.
    destruct (onMessageListener s); auto.
    destruct answer; auto.
Qed.

Lemma deferred_session o s tr : snd (fst (deferred o s tr)) = s.
Proof.
  unfold deferred.
  destruct (call_all RunOnClose (onCloseListeners s)) as [evs [|]]; reflexivity.
Qed.

Lemma leave_session o s evs w : sess (snd (leave o s evs w)) = s.
Proof.
  unfold leave. pose proof (deferred_session o s evs) as H.
  destruct (deferred o s evs) as [[o' s'] tr]. exact H.
Qed.

Lemma read_loop_keeps script :
  forall buf s tr,
    forallb (rtick_within allowed) script = true ->
    P s -> P (snd (fst (read_loop script buf s tr))).
Proof.
  induction script as [|t rest IH]; intros buf s tr Hall HP; simpl.
  - destruct (running s); exact HP.
  - simpl in Hall. apply andb_true_iff in Hall as [Ht Hrest].
    destruct t as [data err answer|c].
    + destruct (running s); [|exact HP].
      pose proof (read_turn_keeps data err answer buf s HP) as Hturn.
      destruct (read_turn data err answer buf s) as [s' buf' evs|o s' evs].
      * apply IH; assumption.
      * exact Hturn.
    + simpl in Ht. pose proof (P_call c s Ht HP) as Hc.
      destruct (call c s) as [s' evs]. apply IH; assumption.
Qed.

Lemma readPackets_keeps readSize script s :
  forallb (rtick_within allowed) script = true ->
  P s -> P (snd (fst (readPackets readSize script s))).
Proof.
  intros Hall HP. unfold readPackets.
  destruct (onMessageListener s); [exact HP|].
  pose proof (read_loop_keeps script (make readSize) s [] Hall HP) as Hloop.
  destruct (read_loop script (make readSize) s []) as [[o s'] tr].
  simpl in Hloop.
  destruct o; try (rewrite deferred_session; exact Hloop); exact Hloop.
Qed.

Lemma step_keeps t w :
  stick_within allowed t = true -> P (sess w) -> P (sess (snd (step t w))).
Proof.
  intros Ht HP. destruct t as [data err answer|werr|c|i]; simpl.
  - unfold reader_step. destruct (reader w) as [readSize|buf|buf|].
    + destruct (onMessageListener (sess w)); exact HP.
    + destruct (running (sess w)); [exact HP|]. now rewrite leave_session.
    + pose proof (read_turn_keeps data err answer buf (sess w) HP) as Hturn.
      destruct (read_turn data err answer buf (sess w)) as [s' buf' evs|o s' evs].
      * exact Hturn.
      * now rewrite leave_session.
    + exact HP.
  - unfold writer_step. destruct (writer w) as [| |msg].
    + destruct (running (sess w)); exact HP.
    + destruct (sendChan (sess w)) as [|msg queue]; [exact HP|].
      simpl. now apply P_sendChan.
    + destruct werr as [e|]; [|exact HP].
      pose proof (P_Closed _ HP) as Hc.
      destruct (Closed (sess w)) as [s' evs]. exact Hc.
  - unfold other_step. simpl in Ht. pose proof (P_call c (sess w) Ht HP) as Hc.
    destruct (call c (sess w)) as [s' evs]. exact Hc.
  - unfold sender_step. destruct (nth_error (ready w) i) as [batchMsg|]; [|exact HP].
    simpl. destruct (SendBatch_queues batchMsg (sess w)) as [q ->].
    now apply P_sendChan.
Qed.

Lemma write_loop_keeps script :
  forall w,
    forallb (stick_within allowed) script = true ->
    P (sess w) -> P (sess (snd (write_loop script w))).
Proof.
  induction script as [|t rest IH]; intros w Hall HP; simpl.
  - exact HP.
  - simpl in Hall. apply andb_true_iff in Hall as [Ht Hrest].
    pose proof (step_keeps t w Ht HP) as Hstep.
    destruct (step t w) as [o w']. cbn [snd] in Hstep.
    destruct o; try exact Hstep. now apply IH.
Qed.

Lemma Start_keeps script s :
  forallb (stick_within allowed) script = true ->
  P s -> P (snd (fst (Start script s))).
Proof.
  intros Hall HP. unfold Start.
  pose proof (write_loop_keeps script
                {| reader := Spawned 2048; writer := AtTest; waiting := [];
                   ready := []; sess := set_running true s; trace := [] |}
                Hall (P_running true s HP)) as H.
  destruct (write_loop script _) as [o w]. exact H.
Qed.

Lemma exec_keeps o s :
  op_within allowed o = true -> P s -> P (fst (exec o s)).
Proof.
  intros Ho HP. destruct o as [c|script|readSize script]; simpl in *.
  - now apply P_call.
  - pose proof (Start_keeps script s Ho HP) as H.
    destruct (Start script s) as [[[o r] s'] tr]. exact H.
  - pose proof (readPackets_keeps readSize script s Ho HP) as H.
    destruct (readPackets readSize script s) as [[o s'] tr]. exact H.
Qed.

Lemma exec_all_keeps ops :
  forall s,
    forallb (op_within allowed) ops = true -> P s -> P (fst (exec_all ops s)).
Proof.
  induction ops as [|o rest IH]; intros s Hall HP; simpl.
  - exact HP.
  - simpl in Hall. apply andb_true_iff in Hall as [Ho Hrest].
    pose proof (exec_keeps o s Ho HP) as H1.
    destruct (exec o s) as [s1 tr1].
    pose proof (IH s1 Hrest H1) as H2.
    destruct (exec_all rest s1) as [s2 tr2]. exact H2.
Qed.

End Keeps.

(** ** The short methods *)

(** SendBatch touches the send channel and nothing else. *)
Lemma SendBatch_frame batchMsg :
  forall s,
    status (SendBatch batchMsg s) = status s /\
    running (SendBatch batchMsg s) = running s /\
    onCloseListeners (SendBatch batchMsg s) = onCloseListeners s /\
    onErrorListeners (SendBatch batchMsg s) = onErrorListeners s /\
    onMessageListener (SendBatch batchMsg s) = onMessageListener s.
Proof.
  intros s. destruct (SendBatch_queues batchMsg s) as [q ->]. repeat split.
Qed.

Lemma SendBatch_stopped batchMsg :
  forall s, running s = false -> SendBatch batchMsg s = s.
Proof.
  induction batchMsg as [|msg rest IH]; intros s Hr; simpl.
  - reflexivity.
  - unfold Send. rewrite Hr. simpl. now apply IH.
Qed.

Lemma call_status c s :
  not_SetStatus c = true ->
  status s = Const.Closed -> status (fst (call c s)) = Const.Closed.
Proof.
  intros Hc Hs. destruct c as [v|u|l|l|l|m|ms|]; simpl in *; try discriminate; try exact Hs.
  - unfold Bind. destruct (u <? 1); exact Hs.
  - unfold OnClose. destruct (negb (is_nil l)); exact Hs.
  - unfold OnError. destruct (negb (is_nil l)); exact Hs.
  - unfold OnMessage. destruct (negb (is_nil l)); exact Hs.
  - unfold Send. destruct (negb (running s)); exact Hs.
  - destruct (SendBatch_frame ms s) as (H & _). now rewrite H.
  - unfold Closed. simpl. destruct (sessionComponent s); reflexivity.
Qed.

Lemma no_nil_app ls f : no_nil ls -> is_nil f = false -> no_nil (ls ++ [f]).
Proof.
  intros Hls Hf. apply Forall_app. split; [exact Hls|]. now constructor.
Qed.

Lemma call_listeners_ok c s :
  listeners_ok s -> listeners_ok (fst (call c s)).
Proof.
  intros [Hc He]. destruct c as [v|u|l|l|l|m|ms|]; simpl.
  - split; assumption.
  - unfold Bind. destruct (u <? 1); split; assumption.
  - unfold OnClose. destruct (is_nil l) eqn:Hn; simpl.
    + split; assumption.
    + split; [apply no_nil_app|]; assumption.
  - unfold OnError. destruct (is_nil l) eqn:Hn; simpl.
    + split; assumption.
    + split; [|apply no_nil_app]; assumption.
  - unfold OnMessage. destruct (negb (is_nil l)); split; assumption.
  - unfold Send. destruct (negb (running s)); split; assumption.
  - destruct (SendBatch_frame ms s) as (_ & _ & H3 & H4 & _).
    unfold listeners_ok. rewrite H3, H4. split; assumption.
  - unfold Closed. simpl. destruct (sessionComponent s); split; assumption.
Qed.

(** A message listener, once set, is never taken away again. *)
Lemma call_listening c s :
  is_nil (onMessageListener s) = false ->
  is_nil (onMessageListener (fst (call c s))) = false.
Proof.
  intros H. destruct c as [v|u|l|l|l|m|ms|]; simpl; try exact H.
  - unfold Bind. destruct (u <? 1); exact H.
  - unfold OnClose. destruct (negb (is_nil l)); exact H.
  - unfold OnError. destruct (negb (is_nil l)); exact H.
  - unfold OnMessage. destruct (is_nil l) eqn:Hn; simpl; assumption.
  - unfold Send. destruct (negb (running s)); exact H.
  - destruct (SendBatch_frame ms s) as (_ & _ & _ & _ & H5). now rewrite H5.
  - unfold Closed. simpl. destruct (sessionComponent s); exact H.
Qed.

Lemma NewSession_listeners_ok sid sc now : listeners_ok (NewSession sid sc now).
Proof.
  split; simpl; repeat constructor.
Qed.

Lemma exec_listeners_ok o s : listeners_ok s -> listeners_ok (fst (exec o s)).
Proof.
  apply exec_keeps with (allowed := any_call).
  - intros c s' _. apply call_listeners_ok.
  - intros b s' H. exact H.
  - intros q s' H. exact H.
  - intros s' H. exact (call_listeners_ok CallClosed s' H).
  - destruct o as [c|script|readSize script]; simpl; [reflexivity| |];
      apply forallb_forall; intros t _; destruct t; reflexivity.
Qed.

Lemma any_op_within ops : forallb (op_within any_call) ops = true.
Proof.
  apply forallb_forall. intros o _.
  destruct o as [c|script|readSize script]; simpl; [reflexivity| |];
    apply forallb_forall; intros t _; destruct t; reflexivity.
Qed.

(** ** The identifier counter *)

Lemma wrap64_add_l a b : wrap64 (wrap64 a + b) = wrap64 (a + b).
Proof.
  unfold wrap64. f_equal.
  replace ((a + 2 ^ 63) mod 2 ^ 64 - 2 ^ 63 + b + 2 ^ 63)
    with ((a + 2 ^ 63) mod 2 ^ 64 + b) by ring.
  rewrite Zplus_mod_idemp_l. f_equal. ring.
Qed.

Lemma wrap64_small z : - 2 ^ 63 <= z < 2 ^ 63 -> wrap64 z = z.
Proof.
  intros H. unfold wrap64. rewrite Z.mod_small; lia.
Qed.

Lemma counter_after_spec n : NetSession.counter_after n = wrap64 (Z.of_N n).
Proof.
  unfold NetSession.counter_after.
  induction n as [|n IH] using N.peano_ind.
  - reflexivity.
  - rewrite N.iter_succ, IH. cbn [NetSession.NextSID snd].
    rewrite wrap64_add_l. f_equal. lia.
Qed.

Lemma sid_of_call_spec n :
  (1 <= n)%N -> NetSession.sid_of_call n = wrap64 (Z.of_N n).
Proof.
  intros Hn. unfold NetSession.sid_of_call.
  rewrite counter_after_spec. cbn [NetSession.NextSID fst].
  rewrite wrap64_add_l. f_equal. lia.
Qed.

(** C9, as the code has it: the n-th call of a process returns n for as
    long as n fits an int64, so among the first 2^63 - 1 calls every call
    returns an identifier strictly greater than every earlier one. *)
Theorem NextSID_increases_below_wrap (i j : N) :
  (1 <= i)%N -> (i < j)%N -> (j < 2 ^ 63)%N ->
  NetSession.sid_of_call i = Z.of_N i /\
  NetSession.sid_of_call j = Z.of_N j /\
  NetSession.sid_of_call i < NetSession.sid_of_call j.
Proof.
  intros Hi Hij Hj.
  assert (Hj' : Z.of_N j < 2 ^ 63).
  { change (2 ^ 63) with (Z.of_N (2 ^ 63)). lia. }
  rewrite !sid_of_call_spec by lia.
  rewrite !wrap64_small by lia.
  repeat split; lia.
Qed.

Lemma NextSID_increases_below_wrap_witness :
  (1 <= 1)%N /\ (1 < 2)%N /\ (2 < 2 ^ 63)%N /\
  NetSession.sid_of_call 1 < NetSession.sid_of_call 2.
Proof.
  split; [reflexivity|]. split; [reflexivity|]. split; [reflexivity|].
  apply (NextSID_increases_below_wrap 1 2); reflexivity.
Defined.

(** C9 as stated fails where the int64 counter wraps: the call numbered
    2^63 returns the least int64, which is below what the first call
    returned, and call 2^64 + 1 returns the first identifier again. *)
Lemma NextSID_wraps :
  NetSession.sid_of_call 1 = 1 /\
  NetSession.sid_of_call (2 ^ 63 - 1) = max_int64 /\
  NetSession.sid_of_call (2 ^ 63) = min_int64 /\
  NetSession.sid_of_call (2 ^ 63) < NetSession.sid_of_call 1 /\
  NetSession.sid_of_call (2 ^ 64 + 1) = NetSession.sid_of_call 1.
Proof.
  rewrite !sid_of_call_spec by (vm_compute; discriminate).
  vm_compute. repeat split.
Qed.

(** ** Binding *)

(** C4: a uid below 1 is refused with the illegal-uid error and the session
    is left as it was, in the session that stores the uid itself and in the
    one that hands binding to its component (which is then not asked). *)
Theorem Bind_illegal_uid (uid : facade.UID) :
  uid < 1 ->
  (forall s, Bind uid s = (Some IllegalUID, s)) /\
  (forall component_Bind r,
      NetSession.Bind component_Bind uid r = (Some SessionIllegalUID, r, [])).
Proof.
  intros H. apply Z.ltb_lt in H.
  split; intros; [unfold Bind | unfold NetSession.Bind]; rewrite H; reflexivity.
Qed.

Lemma Bind_illegal_uid_witness :
  0 < 1 /\ Bind 0 sample = (Some IllegalUID, sample).
Proof.
  split; [reflexivity|].
  apply (Bind_illegal_uid 0); reflexivity.
Defined.

(** C5: a uid of at least 1 is stored without error, UID() then returns it,
    and IsBind(), which tests uid > 0, is true of a session holding it. *)
Theorem Bind_then_UID (uid : facade.UID) (s : Session) :
  1 <= uid ->
  fst (Bind uid s) = None /\
  UID (snd (Bind uid s)) = uid /\
  (forall r, NetSession.UID r = UID (snd (Bind uid s)) ->
             NetSession.IsBind r = true).
Proof.
  intros H. unfold Bind.
  assert (Hlt : (uid <? 1) = false) by (apply Z.ltb_ge; lia).
  rewrite Hlt. cbn. repeat split.
  intros r Hr. unfold NetSession.IsBind, NetSession.UID in *.
  rewrite Hr. apply Z.ltb_lt. lia.
Qed.

Lemma Bind_then_UID_witness :
  1 <= 42 /\ fst (Bind 42 sample) = None /\ UID (snd (Bind 42 sample)) = 42.
Proof.
  split; [discriminate|].
  pose proof (Bind_then_UID 42 sample) as H.
  split; apply H; discriminate.
Defined.

(** ** Send *)

(** C3: on a session that is not running, Send returns nil and leaves the
    session as it was: nothing is put on the send channel, and the call has
    no effect on the connection. *)
Theorem Send_when_not_running (msg : bytes) (s : Session) :
  running s = false ->
  Send msg s = (None, s) /\
  sendChan (snd (Send msg s)) = sendChan s /\
  call (CallSend msg) s = (s, []).
Proof.
  intros H. unfold call, Send. rewrite H. simpl. repeat split.
Qed.

Lemma Send_when_not_running_witness :
  running sample = false /\ Send [x01; x02] sample = (None, sample).
Proof.
  split; [reflexivity|].
  apply (Send_when_not_running [x01; x02] sample). reflexivity.
Defined.

(** ** Closed *)

Lemma Closed_again s :
  Closed (fst (Closed s)) =
  (fst (Closed s),
   match sessionComponent s with Some _ => [Remove (sid s)] | None => [] end).
Proof.
  destruct s as [st ru si ui fr [c|] lt ch oc oe om]; reflexivity.
Qed.

Lemma Closed_events s :
  snd (Closed s) =
  match sessionComponent s with Some _ => [Remove (sid s)] | None => [] end.
Proof.
  unfold Closed. simpl. destruct (sessionComponent s); reflexivity.
Qed.

Lemma Closed_fields s :
  status (fst (Closed s)) = Const.Closed /\
  running (fst (Closed s)) = false /\
  sid (fst (Closed s)) = sid s /\
  sessionComponent (fst (Closed s)) = sessionComponent s.
Proof.
  destruct s as [st ru si ui fr [c|] lt ch oc oe om]; repeat split.
Qed.

(** The delegating session has no close transition of its own: Close goes
    to the network entity on every call, and every run of OnCloseProcess
    calls the component's close listeners up to the first that answers
    false and then unbinds. *)
Lemma Close_goes_to_the_entity r :
  NetSession.has_entity r = true ->
  NetSession.Close r = (Returned, [NetSession.EntityClose]).
Proof.
  intros H. unfold NetSession.Close. now rewrite H.
Qed.

Lemma OnCloseProcess_unbinds_last r :
  exists listened,
    NetSession.OnCloseProcess r =
    listened ++ [NetSession.ComponentUnbind (NetSession.sid r)].
Proof.
  unfold NetSession.OnCloseProcess, NetSession.Unbind. eauto.
Qed.

(** ** The status *)

(** C2, as the code has it: once the status is Closed it stays Closed under
    every sequence of operations in which SetStatus is not called, neither
    directly nor by another context while Start or readPackets runs;
    SetStatus stores whatever it is given. *)
Theorem status_stays_Closed (ops : list Op) (s : Session) :
  status s = Const.Closed ->
  forallb (op_within not_SetStatus) ops = true ->
  status (fst (exec_all ops s)) = Const.Closed /\
  (forall v, Status (SetStatus v s) = v).
Proof.
  intros Hs Hops. split; [|reflexivity].
  apply exec_all_keeps
    with (P := fun s => status s = Const.Closed) (allowed := not_SetStatus);
    auto.
  - intros c s0. apply call_status.
  - intros s0 _. apply Closed_fields.
Qed.

Lemma status_stays_Closed_witness :
  status (fst (Closed sample)) = Const.Closed /\
  status (fst (exec_all
    [Do (CallBind 42); Do (CallSend [x01]);
     DoStart [SReader [x01] None None; SWriter None];
     DoReadPackets 16 [Rd [x01] None None]; Do CallClosed]
    (fst (Closed sample)))) = Const.Closed.
Proof.
  split; [reflexivity|].
  apply (status_stays_Closed
    [Do (CallBind 42); Do (CallSend [x01]);
     DoStart [SReader [x01] None None; SWriter None];
     DoReadPackets 16 [Rd [x01] None None]; Do CallClosed]
    (fst (Closed sample))); reflexivity.
Defined.

(** C2 as stated fails: SetStatus on a closed session takes it out of
    Closed. *)
Lemma SetStatus_leaves_Closed :
  status (fst (exec_all [Do CallClosed] sample)) = Const.Closed /\
  status (fst (exec_all [Do CallClosed; Do (CallSetStatus Const.Init)] sample))
    = Const.Init /\
  Const.Init <> Const.Closed.
Proof.
  repeat split. discriminate.
Qed.

(** ** Listener registration *)

(** C10: registering nil with OnClose, OnError or OnMessage changes nothing;
    the two listener slices of a session made by NewSession hold no nil
    after any sequence of operations, and no operation puts one there. *)
Theorem nil_listener_never_stored (s : Session) (o : Op) :
  OnClose nilFunc s = s /\
  OnError nilFunc s = s /\
  OnMessage nilFunc s = s /\
  (forall sid sc now ops,
      listeners_ok (fst (exec_all ops (NewSession sid sc now)))) /\
  (listeners_ok s -> listeners_ok (fst (exec o s))).
Proof.
  split; [reflexivity|]. split; [reflexivity|]. split; [reflexivity|].
  split.
  - intros sid0 sc now ops.
    apply exec_all_keeps with (P := listeners_ok) (allowed := any_call); auto.
    + intros c s0 _. apply call_listeners_ok.
    + intros s0. apply (call_listeners_ok CallClosed).
    + apply any_op_within.
    + apply NewSession_listeners_ok.
  - apply exec_listeners_ok.
Qed.

Lemma nil_listener_never_stored_witness :
  listeners_ok sample /\
  listeners_ok (fst (exec (DoStart [SOther (CallOnClose nilFunc);
                                    SOther (CallOnError (closure 3))]) sample)) /\
  OnClose nilFunc sample = sample.
Proof.
  assert (Hok : listeners_ok sample) by (split; repeat constructor).
  split; [exact Hok|].
  pose proof (nil_listener_never_stored sample
    (DoStart [SOther (CallOnClose nilFunc); SOther (CallOnError (closure 3))]))
    as (H1 & _ & _ & _ & H5).
  split; [exact (H5 Hok)|exact H1].
Defined.

(** ** The reader loop *)

Lemma call_all_ok ev ls : no_nil ls -> call_all ev ls = (map ev (ids ls), true).
Proof.
  induction 1 as [|f ls Hf Hls IH]; simpl.
  - reflexivity.
  - destruct f as [|l]; [discriminate|]. rewrite IH. reflexivity.
Qed.

Lemma ids_closure ls : no_nil ls -> map closure (ids ls) = ls.
Proof.
  induction 1 as [|f ls Hf Hls IH]; simpl.
  - reflexivity.
  - destruct f as [|l]; [discriminate|]. simpl. now rewrite IH.
Qed.

Lemma call_events c s : forallb loop_event (snd (call c s)) = true.
Proof.
  destruct c as [v|u|l|l|l|m|ms|]; try reflexivity.
  simpl. rewrite Closed_events. destruct (sessionComponent s); reflexivity.
Qed.

Lemma dispatched_app tr1 tr2 : dispatched (tr1 ++ tr2) = dispatched tr1 ++ dispatched tr2.
Proof. apply flat_map_app. Qed.

Lemma delivered_app tr1 tr2 : delivered (tr1 ++ tr2) = delivered tr1 ++ delivered tr2.
Proof. apply flat_map_app. Qed.

Lemma close_runs_app tr1 tr2 : close_runs (tr1 ++ tr2) = close_runs tr1 ++ close_runs tr2.
Proof. apply flat_map_app. Qed.

Lemma conn_closes_app tr1 tr2 :
  conn_closes (tr1 ++ tr2) = (conn_closes tr1 + conn_closes tr2)%nat.
Proof. unfold conn_closes. now rewrite filter_app, length_app. Qed.

(** Listener runs neither read nor dispatch. *)
Lemma call_all_silent ev ls :
  (forall l, dispatched [ev l] = [] /\ delivered [ev l] = []) ->
  dispatched (fst (call_all ev ls)) = [] /\ delivered (fst (call_all ev ls)) = [].
Proof.
  intros Hev. induction ls as [|f ls IH]; simpl; [split; reflexivity|].
  destruct f as [|l]; [split; reflexivity|].
  destruct (call_all ev ls) as [evs ok]. cbn [fst] in *.
  destruct (Hev l) as [H1 H2]. destruct IH as [IH1 IH2].
  change (ev l :: evs) with ([ev l] ++ evs).
  rewrite dispatched_app, delivered_app, H1, H2, IH1, IH2. split; reflexivity.
Qed.

(** The view handed to the message listener, buf[:n], is what the read put
    at the front of the buffer. *)
Lemma view_is_what_was_read data buf :
  let (n, buf') := conn_Read data buf in
  firstn n buf' = firstn n data.
Proof.
  unfold conn_Read.
  set (n := Nat.min (List.length data) (List.length buf)).
  assert (Hlen : List.length (firstn n data) = n).
  { rewrite length_firstn. unfold n. lia. }
  rewrite firstn_app, Hlen, Nat.sub_diag. simpl. rewrite app_nil_r.
  rewrite firstn_all2; [reflexivity|lia].
Qed.

Lemma read_some data buf :
  (fst (conn_Read data buf) <? 1)%nat = false ->
  exists b got, firstn (fst (conn_Read data buf)) data = b :: got.
Proof.
  unfold conn_Read. simpl. intros H. apply Nat.ltb_ge in H.
  destruct data as [|b data]; simpl in *; [lia|].
  destruct (List.length buf) as [|k]; simpl in *; [lia|].
  eauto.
Qed.

Lemma read_none data buf :
  (fst (conn_Read data buf) <? 1)%nat = true ->
  firstn (fst (conn_Read data buf)) data = [].
Proof.
  unfold conn_Read. simpl. intros H. apply Nat.ltb_lt in H.
  assert (Hn : Nat.min (List.length data) (List.length buf) = 0%nat) by lia.
  rewrite Hn. reflexivity.
Qed.

Lemma read_turn_dispatch data err answer buf s :
  is_nil (onMessageListener s) = false ->
  dispatched (turn_events (read_turn data err answer buf s)) =
  delivered (turn_events (read_turn data err answer buf s)).
Proof.
  intros Hl. unfold read_turn.
  pose proof (view_is_what_was_read data buf) as Hview.
  pose proof (read_some data buf) as Hsome.
  pose proof (read_none data buf) as Hnone.
  destruct (conn_Read data buf) as [n buf']. cbn [fst] in *.
  destruct err as [e|].
  - destruct (call_all_silent RunOnError (onErrorListeners s)) as [H1 H2].
    { intros l. split; reflexivity. }
    destruct (call_all RunOnError (onErrorListeners s)) as [evs ok].
    cbn [fst] in *.
    assert (Hd : dispatched (ConnRead (firstn n data) (Some e) :: evs) = []).
    { exact H1. }
    assert (Hr : delivered (ConnRead (firstn n data) (Some e) :: evs) = []).
    { change (ConnRead (firstn n data) (Some e) :: evs)
        with ([ConnRead (firstn n data) (Some e)] ++ evs).
      rewrite delivered_app, H2. cbn. destruct (firstn n data); reflexivity. }
    destruct ok; cbn [turn_events]; now rewrite Hd, Hr.
  - destruct (n <? 1)%nat eqn:Hn.
    + cbn [turn_events]. rewrite (Hnone eq_refl). reflexivity.
    + destruct (Hsome eq_refl) as (b & got & Hgot).
      destruct (onMessageListener s) as [|l]; [discriminate|].
      rewrite Hview, Hgot. destruct answer; reflexivity.
Qed.

Lemma call_silent c s :
  dispatched (snd (call c s)) = [] /\ delivered (snd (call c s)) = [].
Proof.
  destruct c as [v|u|l|l|l|m|ms|]; try (split; reflexivity).
  simpl. rewrite Closed_events. destruct (sessionComponent s); split; reflexivity.
Qed.

Lemma read_turn_listening data err answer buf s :
  is_nil (onMessageListener s) = false ->
  match read_turn data err answer buf s with
  | Continue s' _ _ => is_nil (onMessageListener s') = false
  | Leave _ s' _ => is_nil (onMessageListener s') = false
  end.
Proof.
  apply (read_turn_keeps (fun s => is_nil (onMessageListener s) = false)).
  intros b s0 H. exact H.
Qed.

Lemma read_loop_dispatch script :
  forall buf s tr,
    is_nil (onMessageListener s) = false ->
    dispatched tr = delivered tr ->
    dispatched (snd (read_loop script buf s tr)) =
    delivered (snd (read_loop script buf s tr)).
Proof.
  induction script as [|t rest IH]; intros buf s tr Hl Htr; simpl.
  - destruct (running s); exact Htr.
  - destruct t as [data err answer|c].
    + destruct (running s); [|exact Htr].
      pose proof (read_turn_dispatch data err answer buf s Hl) as Hturn.
      pose proof (read_turn_listening data err answer buf s Hl) as Hl'.
      destruct (read_turn data err answer buf s) as [s' buf' evs|o s' evs];
        cbn [turn_events] in Hturn.
      * apply IH; [exact Hl'|].
        now rewrite dispatched_app, delivered_app, Htr, Hturn.
      * cbn [snd]. now rewrite dispatched_app, delivered_app, Htr, Hturn.
    + pose proof (call_listening c s Hl) as Hl'.
      destruct (call_silent c s) as [H1 H2].
      destruct (call c s) as [s' evs]. cbn [fst snd] in *.
      apply IH; [exact Hl'|].
      now rewrite dispatched_app, delivered_app, Htr, H1, H2.
Qed.

Lemma deferred_silent o s tr :
  dispatched (snd (deferred o s tr)) = dispatched tr /\
  delivered (snd (deferred o s tr)) = delivered tr.
Proof.
  unfold deferred.
  destruct (call_all_silent RunOnClose (onCloseListeners s)) as [H1 H2].
  { intros l. split; reflexivity. }
  destruct (call_all RunOnClose (onCloseListeners s)) as [evs ok].
  cbn [fst] in *.
  destruct ok; cbn [snd];
    rewrite ?dispatched_app, ?delivered_app, H1, H2; cbn; rewrite ?app_nil_r;
    split; reflexivity.
Qed.

Lemma conn_Read_lengths data buf :
  (fst (conn_Read data buf) <= List.length buf)%nat /\
  List.length (snd (conn_Read data buf)) = List.length buf /\
  List.length (firstn (fst (conn_Read data buf)) data) = fst (conn_Read data buf) /\
  List.length (firstn (fst (conn_Read data buf)) (snd (conn_Read data buf)))
    = fst (conn_Read data buf).
Proof.
  unfold conn_Read. cbn [fst snd].
  set (n := Nat.min (List.length data) (List.length buf)).
  assert (Hn1 : (n <= List.length data)%nat) by (unfold n; lia).
  assert (Hn2 : (n <= List.length buf)%nat) by (unfold n; lia).
  assert (Hlen : List.length (firstn n data ++ skipn n buf) = List.length buf).
  { rewrite length_app, length_firstn, length_skipn. lia. }
  repeat split.
  - exact Hn2.
  - exact Hlen.
  - rewrite length_firstn. lia.
  - rewrite length_firstn, Hlen. lia.
Qed.

Lemma firstn_min {A} (l : list A) k :
  firstn (Nat.min (List.length l) k) l = firstn k l.
Proof.
  destruct (Nat.le_ge_cases (List.length l) k) as [H|H].
  - rewrite Nat.min_l by exact H. now rewrite !firstn_all2 by lia.
  - now rewrite Nat.min_r by exact H.
Qed.

(** One successful read, one call: the trace of a turn whose read succeeds
    is the read and, when it delivered a byte, the one call of the message
    listener with the bytes delivered. *)
Lemma read_turn_one_call data answer buf s l :
  onMessageListener s = closure l ->
  turn_events (read_turn data None answer buf s) =
  match firstn (List.length buf) data with
  | [] => [ConnRead [] None]
  | b :: got => [ConnRead (b :: got) None; Dispatch l (b :: got)]
  end.
Proof.
  intros Hl. unfold read_turn.
  pose proof (view_is_what_was_read data buf) as Hview.
  pose proof (read_some data buf) as Hsome.
  pose proof (read_none data buf) as Hnone.
  assert (Hmin : firstn (fst (conn_Read data buf)) data
                 = firstn (List.length buf) data) by apply firstn_min.
  destruct (conn_Read data buf) as [n buf']. cbn [fst] in *.
  rewrite <- Hmin.
  destruct (n <? 1)%nat.
  - rewrite (Hnone eq_refl). reflexivity.
  - destruct (Hsome eq_refl) as (b & got & Hgot).
    rewrite Hl, Hview, Hgot. destruct answer; reflexivity.
Qed.

Lemma read_payloads_app tr1 tr2 :
  read_payloads (tr1 ++ tr2) = read_payloads tr1 ++ read_payloads tr2.
Proof. apply flat_map_app. Qed.

Lemma call_reads_nothing c s : read_payloads (snd (call c s)) = [].
Proof.
  destruct c as [v|u|l|l|l|m|ms|]; try reflexivity.
  simpl. rewrite Closed_events. destruct (sessionComponent s); reflexivity.
Qed.

Lemma read_turn_success data answer buf s :
  match read_turn data None answer buf s with
  | Continue s' buf' evs =>
      List.length buf' = List.length buf /\
      read_payloads evs = [firstn (List.length buf) data] /\
      delivered evs = filter some_bytes [firstn (List.length buf) data]
  | Leave _ _ _ => True
  end.
Proof.
  unfold read_turn.
  destruct (conn_Read_lengths data buf) as (_ & Hlen & _).
  pose proof (firstn_min data (List.length buf)) as Hmin.
  pose proof (read_some data buf) as Hsome.
  pose proof (read_none data buf) as Hnone.
  unfold conn_Read in *. cbn [fst snd] in *.
  set (k := Nat.min (List.length data) (List.length buf)) in *.
  rewrite <- Hmin.
  destruct (k <? 1)%nat.
  - split; [exact Hlen|]. rewrite (Hnone eq_refl). split; reflexivity.
  - destruct (onMessageListener s); [exact I|].
    destruct answer; [exact I|].
    split; [exact Hlen|].
    destruct (Hsome eq_refl) as (b & got & Hgot). rewrite Hgot.
    split; reflexivity.
Qed.

Lemma read_turn_failure_leaves data e answer buf s :
  exists o s' evs, read_turn data (Some e) answer buf s = Leave o s' evs.
Proof.
  unfold read_turn. destruct (conn_Read data buf) as [n buf'].
  destruct (call_all RunOnError (onErrorListeners s)) as [evs [|]]; eauto.
Qed.

Lemma read_turn_never_blocks data err answer buf s s' evs :
  read_turn data err answer buf s <> Leave Blocked s' evs.
Proof.
  unfold read_turn. destruct (conn_Read data buf) as [n buf'].
  destruct err as [e|].
  - destruct (call_all RunOnError (onErrorListeners s)) as [es [|]]; discriminate.
  - destruct (n <? 1)%nat; [discriminate|].
    destruct (onMessageListener s); [discriminate|].
    destruct answer; discriminate.
Qed.

(** While the loop has not been left, every read of the script has been
    made and has succeeded. *)
Lemma read_loop_in_the_loop script n :
  forall buf s tr,
    List.length buf = n ->
    fst (fst (read_loop script buf s tr)) = Blocked ->
    read_payloads (snd (read_loop script buf s tr))
      = read_payloads tr ++ map (firstn n) (offered script) /\
    delivered (snd (read_loop script buf s tr))
      = delivered tr ++ filter some_bytes (map (firstn n) (offered script)).
Proof.
  induction script as [|t rest IH]; intros buf s tr Hbuf H; simpl in *.
  - rewrite !app_nil_r. destruct (running s); split; reflexivity.
  - destruct t as [data err answer|c].
    + destruct (running s); [|discriminate].
      destruct err as [e|].
      * destruct (read_turn_failure_leaves data e answer buf s)
          as (o & s' & evs & Heq).
        rewrite Heq in H. cbn [fst] in H. subst o.
        destruct (read_turn_never_blocks _ _ _ _ _ _ _ Heq).
      * pose proof (read_turn_success data answer buf s) as Hturn.
        destruct (read_turn data None answer buf s) as [s' buf' evs|o s' evs] eqn:Heq.
        -- destruct Hturn as (Hlen & Hr & Hd). rewrite Hbuf in *.
           destruct (IH buf' s' (tr ++ evs) Hlen H) as [IH1 IH2].
           rewrite IH1, IH2, read_payloads_app, delivered_app, Hr, Hd.
           simpl. destruct (some_bytes (firstn n data));
             rewrite <- !app_assoc; split; reflexivity.
        -- cbn [fst] in H. subst o.
           destruct (read_turn_never_blocks _ _ _ _ _ _ _ Heq).
    + pose proof (call_reads_nothing c s) as Hno.
      destruct (call_silent c s) as [_ Hnd].
      destruct (call c s) as [s' evs]. cbn [snd] in Hno, Hnd.
      destruct (IH buf s' (tr ++ evs) Hbuf H) as [IH1 IH2].
      rewrite IH1, IH2, read_payloads_app, delivered_app, Hno, Hnd, !app_nil_r.
      split; reflexivity.
Qed.

(** C6: for every successful read of at least one byte the message
    listener is called once, right after the read, with exactly the bytes
    the read delivered, and a read of no byte calls nobody.  For a turn of
    the loop this is its trace (second part); for a whole run, the views
    the listener is called with are, one for one and in order, the payloads
    of the reads that succeeded with a byte (first part); and while the
    loop has not been left, these reads are all the reads the connection
    had to offer, each cut to the size of the buffer (third part). *)
Theorem readPackets_dispatches_each_read
    (readSize : nat) (script : list RTick) (s : Session) :
  dispatched (snd (readPackets readSize script s)) =
  delivered (snd (readPackets readSize script s)) /\
  (forall data answer buf l,
      onMessageListener s = closure l ->
      turn_events (read_turn data None answer buf s) =
      match firstn (List.length buf) data with
      | [] => [ConnRead [] None]
      | b :: got => [ConnRead (b :: got) None; Dispatch l (b :: got)]
      end) /\
  (fst (fst (readPackets readSize script s)) = Blocked ->
   read_payloads (snd (readPackets readSize script s))
     = map (firstn readSize) (offered script) /\
   dispatched (snd (readPackets readSize script s))
     = filter some_bytes (map (firstn readSize) (offered script))).
Proof.
  assert (H1 : dispatched (snd (readPackets readSize script s)) =
               delivered (snd (readPackets readSize script s))).
  { unfold readPackets.
    destruct (onMessageListener s) as [|l] eqn:Hl; [reflexivity|].
    assert (Hnil : is_nil (onMessageListener s) = false) by now rewrite Hl.
    pose proof (read_loop_dispatch script (make readSize) s [] Hnil eq_refl) as H.
    destruct (read_loop script (make readSize) s []) as [[o s'] tr].
    cbn [snd] in H.
    destruct (deferred_silent o s' tr) as [Hd1 Hd2].
    destruct o; cbn [snd]; try (rewrite Hd1, Hd2); exact H. }
  split; [exact H1|]. split.
  - intros data answer buf l Hl. now apply read_turn_one_call.
  - intros Hb. rewrite H1. unfold readPackets in *.
    destruct (onMessageListener s) as [|l]; [discriminate|].
    pose proof (read_loop_in_the_loop script readSize (make readSize) s []
                  (repeat_length _ _)) as Hloop.
    destruct (read_loop script (make readSize) s []) as [[o s'] tr].
    cbn [fst snd] in *.
    destruct o.
    + exfalso. unfold deferred in Hb.
      destruct (call_all RunOnClose (onCloseListeners s')) as [evs [|]];
        discriminate.
    + cbn [fst snd]. exact (Hloop eq_refl).
    + exfalso. unfold deferred in Hb.
      destruct (call_all RunOnClose (onCloseListeners s')) as [evs [|]];
        discriminate.
Qed.

Lemma readPackets_dispatches_each_read_witness :
  fst (fst (readPackets 2048 [Rd [x01; x02; x03] None None]
              (set_running true sample))) = Blocked /\
  read_payloads (snd (readPackets 2048 [Rd [x01; x02; x03] None None]
                        (set_running true sample))) = [[x01; x02; x03]] /\
  dispatched (snd (readPackets 2048 [Rd [x01; x02; x03] None None]
                     (set_running true sample))) = [[x01; x02; x03]].
Proof.
  split; [reflexivity|].
  exact (proj2 (proj2 (readPackets_dispatches_each_read 2048
                         [Rd [x01; x02; x03] None None]
                         (set_running true sample))) eq_refl).
Defined.

(** The scenario of the specification: three bytes arriving in one read
    reach the listener in one call. *)
Example three_bytes_one_call :
  snd (readPackets 2048 [Rd [x01; x02; x03] None None]
         (set_running true sample)) =
  [ConnRead [x01; x02; x03] None; Dispatch 9 [x01; x02; x03]].
Proof. reflexivity. Qed.

(** *** The missing message listener *)

Lemma panics_differ : Panicked nil_call <> Panicked not_set.
Proof. discriminate. Qed.

Lemma read_loop_outcome script :
  forall buf s tr, fst (fst (read_loop script buf s tr)) <> Panicked not_set.
Proof.
  induction script as [|t rest IH]; intros buf s tr; simpl.
  - destruct (running s); discriminate.
  - destruct t as [data err answer|c].
    + destruct (running s); [|discriminate].
      destruct (read_turn data err answer buf s) as [s' buf' evs|o s' evs] eqn:E.
      * apply IH.
      * cbn [fst]. unfold read_turn in E.
        destruct (conn_Read data buf) as [n buf0].
        destruct err as [e|].
        -- destruct (call_all RunOnError (onErrorListeners s)) as [evs0 [|]];
             inversion E; subst; [discriminate|apply panics_differ].
        -- destruct (n <? 1)%nat; [discriminate|].
           destruct (onMessageListener s);
             [inversion E; subst; apply panics_differ|].
           destruct answer; inversion E; subst; discriminate.
    + destruct (call c s) as [s' evs]. apply IH.
Qed.

Lemma deferred_outcome o s tr :
  o <> Panicked not_set -> fst (fst (deferred o s tr)) <> Panicked not_set.
Proof.
  intros Ho. unfold deferred.
  destruct (call_all RunOnClose (onCloseListeners s)) as [evs [|]]; cbn [fst].
  - exact Ho.
  - apply panics_differ.
Qed.

(** C8: without a message listener readPackets panics at once, before any
    read and before the cleanup is armed; with one, the function never ends
    in that panic. *)
Theorem readPackets_needs_listener
    (readSize : nat) (script : list RTick) (s : Session) :
  (onMessageListener s = nilFunc ->
     readPackets readSize script s = (Panicked not_set, s, []) /\
     reads (snd (readPackets readSize script s)) = 0%nat) /\
  (onMessageListener s <> nilFunc ->
     fst (fst (readPackets readSize script s)) <> Panicked not_set).
Proof.
  unfold readPackets. split; intros H.
  - rewrite H. split; reflexivity.
  - destruct (onMessageListener s) as [|l]; [contradiction|].
    pose proof (read_loop_outcome script (make readSize) s []) as Hloop.
    destruct (read_loop script (make readSize) s []) as [[o s'] tr].
    cbn [fst] in Hloop.
    destruct o; try (apply deferred_outcome; exact Hloop); discriminate.
Qed.

Lemma readPackets_needs_listener_witness :
  onMessageListener (NewSession 7 None 100) = nilFunc /\
  readPackets 2048 [Rd [x01] None None] (NewSession 7 None 100) =
    (Panicked not_set, NewSession 7 None 100, []) /\
  onMessageListener sample <> nilFunc /\
  fst (fst (readPackets 2048 [Rd [x01] None None] sample)) <> Panicked not_set.
Proof.
  split; [reflexivity|]. split.
  - apply (readPackets_needs_listener 2048 [Rd [x01] None None]
             (NewSession 7 None 100)). reflexivity.
  - split; [discriminate|].
    apply (readPackets_needs_listener 2048 [Rd [x01] None None] sample).
    discriminate.
Defined.

(** *** The cleanup *)

Lemma loop_events_app tr1 tr2 :
  forallb loop_event tr1 = true -> forallb loop_event tr2 = true ->
  forallb loop_event (tr1 ++ tr2) = true.
Proof.
  intros H1 H2. rewrite forallb_app, H1, H2. reflexivity.
Qed.

Lemma loop_events_quiet tr :
  forallb loop_event tr = true ->
  close_runs tr = [] /\ conn_closes tr = 0%nat /\
  (forall got e, ~ In (ConnRead got (Some e)) tr).
Proof.
  induction tr as [|ev tr IH]; intros H.
  - repeat split. intros got e [].
  - simpl in H. apply andb_true_iff in H as [Hev Htr].
    destruct (IH Htr) as (H1 & H2 & H3).
    repeat split.
    + destruct ev; try discriminate; exact H1.
    + destruct ev; try discriminate; exact H2.
    + intros got e [Heq|Hin]; [subst ev; discriminate|exact (H3 got e Hin)].
Qed.

(** How the trace of the loop looks when the loop is left: loop events
    only, or loop events, then the read that failed, then the error
    listeners in slice order. *)
Lemma read_loop_shape script :
  forall buf s tr o s1 tr1,
    listeners_ok s ->
    forallb loop_event tr = true ->
    read_loop script buf s tr = (o, s1, tr1) ->
    forallb loop_event tr1 = true \/
    exists before got e,
      forallb loop_event before = true /\
      tr1 = before ++ ConnRead got (Some e)
                   :: map RunOnError (ids (onErrorListeners s1)).
Proof.
  induction script as [|t rest IH]; intros buf s tr o s1 tr1 Hok Htr H; simpl in H.
  - destruct (running s); inversion H; subst; left; exact Htr.
  - destruct t as [data err answer|c].
    + destruct (running s); [|inversion H; subst; left; exact Htr].
      pose proof (read_turn_keeps listeners_ok (fun b s0 H0 => H0)
                    data err answer buf s Hok) as Hok'.
      unfold read_turn in H, Hok'.
      destruct (conn_Read data buf) as [n buf0].
      destruct err as [e|].
      * destruct Hok as [_ Herr].
        rewrite (call_all_ok RunOnError _ Herr) in H.
        inversion H; subst. right.
        exists tr, (firstn n data), e. split; [exact Htr|reflexivity].
      * destruct (n <? 1)%nat.
        -- eapply IH; [exact Hok'| |exact H].
           apply loop_events_app; [exact Htr|reflexivity].
        -- destruct (onMessageListener s) as [|l].
           ++ inversion H; subst. left. apply loop_events_app; [exact Htr|reflexivity].
           ++ destruct answer.
              ** inversion H; subst. left.
                 apply loop_events_app; [exact Htr|reflexivity].
              ** eapply IH; [exact Hok'| |exact H].
           apply loop_events_app; [exact Htr|reflexivity].
    + pose proof (call_listeners_ok c s Hok) as Hok'.
      pose proof (call_events c s) as Hev.
      destruct (call c s) as [s' evs]. cbn [fst snd] in *.
      eapply IH; [exact Hok'| |exact H].
      apply loop_events_app; [exact Htr|exact Hev].
Qed.

(** C7: whenever readPackets returns, whichever way its loop was left, its
    trace ends with the close listeners, each called once in registration
    order, followed by the one closing of the connection; nothing before
    that calls a close listener or closes the connection; and a failed read
    is followed at once by the error listeners, in registration order, which
    therefore all run before the first close listener. *)
Theorem readPackets_cleanup
    (readSize : nat) (script : list RTick) (s s' : Session) (tr : list Event) :
  listeners_ok s ->
  readPackets readSize script s = (Returned, s', tr) ->
  map closure (ids (onCloseListeners s')) = onCloseListeners s' /\
  map closure (ids (onErrorListeners s')) = onErrorListeners s' /\
  close_runs tr = ids (onCloseListeners s') /\
  conn_closes tr = 1%nat /\
  exists body,
    tr = body ++ map RunOnClose (ids (onCloseListeners s')) ++ [ConnClose] /\
    close_runs body = [] /\
    conn_closes body = 0%nat /\
    (forall got e, In (ConnRead got (Some e)) tr ->
       exists before,
         forallb loop_event before = true /\
         body = before ++ ConnRead got (Some e)
                  :: map RunOnError (ids (onErrorListeners s'))).
Proof.
  intros Hok H. unfold readPackets in H.
  destruct (onMessageListener s) as [|l]; [discriminate|].
  pose proof (read_loop_keeps listeners_ok any_call
                (fun c s0 _ => call_listeners_ok c s0) (fun b s0 H0 => H0)
                script (make readSize) s []) as Hkeep.
  pose proof (read_loop_shape script (make readSize) s []) as Hshape.
  destruct (read_loop script (make readSize) s []) as [[o s1] body] eqn:Hloop.
  cbn [fst snd] in Hkeep.
  assert (Hok1 : listeners_ok s1).
  { apply Hkeep; [|exact Hok].
    apply forallb_forall. intros t _. destruct t; reflexivity. }
  specialize (Hshape o s1 body Hok eq_refl eq_refl).
  assert (Hdef : deferred o s1 body = (Returned, s', tr)).
  { destruct o; [exact H|discriminate|exact H]. }
  clear H. unfold deferred in Hdef. destruct Hok1 as [Hclose Herr].
  rewrite (call_all_ok RunOnClose _ Hclose) in Hdef.
  inversion Hdef; subst o s' tr. clear Hdef.
  assert (Hruns : close_runs (map RunOnClose (ids (onCloseListeners s1)) ++ [ConnClose])
                  = ids (onCloseListeners s1)).
  { generalize (ids (onCloseListeners s1)). intros ls.
    induction ls as [|x ls IHls]; [reflexivity|]. simpl. f_equal. exact IHls. }
  assert (Hcl : conn_closes (map RunOnClose (ids (onCloseListeners s1)) ++ [ConnClose])
                = 1%nat).
  { generalize (ids (onCloseListeners s1)). intros ls.
    induction ls as [|x ls IHls]; [reflexivity|exact IHls]. }
  assert (Hbody : close_runs body = [] /\ conn_closes body = 0%nat).
  { destruct Hshape as [Hq|(before & got & e & Hq & ->)].
    - destruct (loop_events_quiet body Hq) as (H1 & H2 & _). split; assumption.
    - destruct (loop_events_quiet before Hq) as (H1 & H2 & _).
      change (ConnRead got (Some e) :: map RunOnError (ids (onErrorListeners s1)))
        with ([ConnRead got (Some e)] ++ map RunOnError (ids (onErrorListeners s1))).
      rewrite !close_runs_app, !conn_closes_app, H1, H2.
      generalize (ids (onErrorListeners s1)). intros ls.
      split; (induction ls as [|x ls IHls]; [reflexivity|exact IHls]). }
  destruct Hbody as [Hb1 Hb2].
  split; [now apply ids_closure|]. split; [now apply ids_closure|].
  split; [rewrite close_runs_app, Hb1, Hruns; reflexivity|].
  split; [rewrite conn_closes_app, Hb2, Hcl; reflexivity|].
  exists body. repeat split; try assumption.
  intros got e Hin.
  apply in_app_or in Hin as [Hin|Hin].
  - destruct Hshape as [Hq|(before & got' & e' & Hq & Heq)].
    + destruct (loop_events_quiet body Hq) as (_ & _ & Hno).
      destruct (Hno got e Hin).
    + exists before. split; [exact Hq|]. rewrite Heq in Hin |- *.
      apply in_app_or in Hin as [Hin|[Hin|Hin]].
      * destruct (loop_events_quiet before Hq) as (_ & _ & Hno).
        destruct (Hno got e Hin).
      * inversion Hin; subst. reflexivity.
      * apply in_map_iff in Hin as (x & Hx & _). discriminate.
  - apply in_app_or in Hin as [Hin|[Hin|[]]]; [|discriminate].
    apply in_map_iff in Hin as (x & Hx & _). discriminate.
Qed.

Lemma readPackets_cleanup_witness :
  listeners_ok (set_running true sample) /\
  readPackets 4
    [Rd [x01; x02; x03] None None; Rd [] (Some (Failure "EOF")) None]
    (set_running true sample) =
  (Returned, sample,
   [ConnRead [x01; x02; x03] None; Dispatch 9 [x01; x02; x03];
    ConnRead [] (Some (Failure "EOF")); RunOnError 1;
    RunOnClose 0; RunOnClose 5; ConnClose]) /\
  conn_closes
    [ConnRead [x01; x02; x03] None; Dispatch 9 [x01; x02; x03];
     ConnRead [] (Some (Failure "EOF")); RunOnError 1;
     RunOnClose 0; RunOnClose 5; ConnClose] = 1%nat.
Proof.
  assert (Hok : listeners_ok (set_running true sample)).
  { split; repeat constructor. }
  split; [exact Hok|]. split; [reflexivity|].
  apply (readPackets_cleanup 4
    [Rd [x01; x02; x03] None None; Rd [] (Some (Failure "EOF")) None]
    (set_running true sample) sample _ Hok eq_refl).
Defined.

(** ** Closing more than once *)

Lemma ids_app ls1 ls2 : ids (ls1 ++ ls2) = ids ls1 ++ ids ls2.
Proof. apply flat_map_app. Qed.

Lemma call_close_listeners c s :
  exists added, onCloseListeners (fst (call c s)) = onCloseListeners s ++ added.
Proof.
  destruct c as [v|u|l|l|l|m|ms|]; simpl.
  - exists []. now rewrite app_nil_r.
  - unfold Bind. destruct (u <? 1); exists []; now rewrite app_nil_r.
  - unfold OnClose. destruct (negb (is_nil l)); simpl; eauto.
    exists []. now rewrite app_nil_r.
  - unfold OnError. destruct (negb (is_nil l)); exists []; now rewrite app_nil_r.
  - unfold OnMessage. destruct (negb (is_nil l)); exists []; now rewrite app_nil_r.
  - unfold Send. destruct (negb (running s)); exists []; now rewrite app_nil_r.
  - destruct (SendBatch_frame ms s) as (_ & _ & H & _). rewrite H.
    exists []. now rewrite app_nil_r.
  - unfold Closed. simpl. destruct (sessionComponent s); exists []; now rewrite app_nil_r.
Qed.

Lemma close_runs_of_listeners ls : close_runs (map RunOnClose ls ++ [ConnClose]) = ls.
Proof.
  induction ls as [|x ls IH]; [reflexivity|]. simpl. f_equal. exact IH.
Qed.

Lemma conn_closes_of_listeners ls : conn_closes (map RunOnClose ls ++ [ConnClose]) = 1%nat.
Proof.
  induction ls as [|x ls IH]; [reflexivity|exact IH].
Qed.

Lemma trace_after_failed_read got e ls cs :
  close_runs ((ConnRead got (Some e) :: map RunOnError ls)
              ++ map RunOnClose cs ++ [ConnClose]) = cs /\
  conn_closes ((ConnRead got (Some e) :: map RunOnError ls)
               ++ map RunOnClose cs ++ [ConnClose]) = 1%nat.
Proof.
  induction ls as [|x ls IH].
  - split; [apply close_runs_of_listeners|apply conn_closes_of_listeners].
  - exact IH.
Qed.

Lemma read_turn_quiet data err answer buf s :
  listeners_ok s ->
  match read_turn data err answer buf s with
  | Continue s' _ evs | Leave _ s' evs =>
      onCloseListeners s' = onCloseListeners s /\
      close_runs evs = [] /\ conn_closes evs = 0%nat
  end.
Proof.
  intros [Hclose Herr]. unfold read_turn.
  destruct (conn_Read data buf) as [n buf'].
  destruct err as [e|].
  - rewrite (call_all_ok RunOnError _ Herr).
    split; [reflexivity|].
    generalize (ids (onErrorListeners s)). intros ls.
    induction ls as [|x ls IH]; [split; reflexivity|exact IH].
  - destruct (n <? 1)%nat; [repeat split|].
    destruct (onMessageListener s); [repeat split|].
    destruct answer; repeat split.
Qed.

Lemma leave_cleans o s evs w :
  listeners_ok s ->
  close_runs evs = [] -> conn_closes evs = 0%nat ->
  reader (snd (leave o s evs w)) = Gone /\
  sess (snd (leave o s evs w)) = s /\
  exists tr,
    trace (snd (leave o s evs w)) = trace w ++ tr /\
    close_runs tr = ids (onCloseListeners s) /\
    conn_closes tr = 1%nat.
Proof.
  intros [Hclose _] H1 H2. unfold leave, deferred.
  rewrite (call_all_ok RunOnClose _ Hclose). cbn [fst snd reader sess trace].
  split; [reflexivity|]. split; [reflexivity|].
  eexists. split; [reflexivity|].
  rewrite close_runs_app, conn_closes_app, H1, H2,
    close_runs_of_listeners, conn_closes_of_listeners.
  split; reflexivity.
Qed.

Lemma cleaned_once_quiet r s tr s' evs :
  cleaned_once r s tr ->
  close_runs evs = [] /\ conn_closes evs = 0%nat ->
  (exists added, onCloseListeners s' = onCloseListeners s ++ added) ->
  cleaned_once r s' (tr ++ evs).
Proof.
  intros (Hc & (later & Hl) & Hr) [H1 H2] (added & Ha).
  unfold cleaned_once.
  rewrite close_runs_app, conn_closes_app, H1, H2, app_nil_r, Nat.add_0_r.
  split; [exact Hc|]. split; [|exact Hr].
  exists (later ++ ids added). now rewrite Ha, ids_app, Hl, app_assoc.
Qed.

Lemma cleaned_once_goes_on r r' s tr :
  r <> Gone -> cleaned_once r s tr -> cleaned_once r' s tr.
Proof.
  intros Hr (Hc & Hl & Hgone). split; [exact Hc|]. split; [exact Hl|].
  intros _. exact (Hgone Hr).
Qed.

Lemma cleaned_once_leaves o s evs w r :
  listeners_ok s ->
  r <> Gone ->
  cleaned_once r (sess w) (trace w) ->
  onCloseListeners s = onCloseListeners (sess w) ->
  close_runs evs = [] -> conn_closes evs = 0%nat ->
  cleaned_once (reader (snd (leave o s evs w))) (sess (snd (leave o s evs w)))
    (trace (snd (leave o s evs w))).
Proof.
  intros Hok Hr (Hc & _ & Hgone) Hsame H1 H2.
  destruct (leave_cleans o s evs w Hok H1 H2) as (-> & -> & tr & -> & H3 & H4).
  destruct (Hgone Hr) as [Hg1 Hg2].
  unfold cleaned_once. rewrite close_runs_app, conn_closes_app, H3, H4, Hg1, Hg2.
  split; [simpl; lia|]. split; [exists []; now rewrite app_nil_r|].
  intros Hne. contradiction.
Qed.

Lemma same_listeners s : exists added : list Func,
  onCloseListeners s = onCloseListeners s ++ added.
Proof. exists []. now rewrite app_nil_r. Qed.

Lemma cleaned_once_step t w :
  listeners_ok (sess w) ->
  cleaned_once (reader w) (sess w) (trace w) ->
  cleaned_once (reader (snd (step t w))) (sess (snd (step t w)))
    (trace (snd (step t w))).
Proof.
  intros Hok HJ. destruct t as [data err answer|werr|c|i]; simpl.
  - unfold reader_step. destruct (reader w) as [readSize|buf|buf|] eqn:Hr.
    + destruct (onMessageListener (sess w)); cbn [snd reader sess trace].
      * destruct HJ as (Hc & Hl & _). split; [exact Hc|]. split; [exact Hl|].
        intros Hne. contradiction.
      * apply (cleaned_once_goes_on (Spawned readSize)); [discriminate|exact HJ].
    + destruct (running (sess w)); cbn [snd reader sess trace].
      * apply (cleaned_once_goes_on (Testing buf)); [discriminate|exact HJ].
      * apply (cleaned_once_leaves _ _ _ _ (Testing buf)); auto. discriminate.
    + pose proof (read_turn_quiet data err answer buf (sess w) Hok) as Hq.
      pose proof (read_turn_keeps listeners_ok (fun b s0 H0 => H0)
                    data err answer buf (sess w) Hok) as Hok'.
      destruct (read_turn data err answer buf (sess w)) as [s' buf' evs|o s' evs];
        destruct Hq as (Hsame & H1 & H2).
      * cbn [snd reader sess trace].
        apply (cleaned_once_goes_on (Reading buf)); [discriminate|].
        apply cleaned_once_quiet with (s := sess w); auto.
        exists []. now rewrite app_nil_r.
      * apply (cleaned_once_leaves _ _ _ _ (Reading buf)); auto. discriminate.
    + cbn [snd]. rewrite Hr. exact HJ.
  - unfold writer_step. destruct (writer w) as [| |msg].
    + destruct (running (sess w)); exact HJ.
    + destruct (sendChan (sess w)) as [|msg queue]; [exact HJ|].
      cbn [snd reader sess trace]. exact HJ.
    + destruct werr as [e|].
      * pose proof (Closed_events (sess w)) as Hev.
        pose proof (call_close_listeners CallClosed (sess w)) as Hadd.
        cbn [call] in Hadd.
        destruct (Closed (sess w)) as [s' evs]. cbn [fst snd reader sess trace] in *.
        apply cleaned_once_quiet with (s := sess w); [exact HJ| |exact Hadd].
        subst evs. simpl. destruct (sessionComponent (sess w)); split; reflexivity.
      * cbn [snd reader sess trace].
        apply cleaned_once_quiet with (s := sess w);
          [exact HJ|split; reflexivity|apply same_listeners].
  - unfold other_step.
    pose proof (call_events c (sess w)) as Hev.
    pose proof (call_close_listeners c (sess w)) as Hadd.
    destruct (call c (sess w)) as [s' evs]. cbn [fst snd reader sess trace] in *.
    destruct (loop_events_quiet evs Hev) as (H1 & H2 & _).
    apply cleaned_once_quiet with (s := sess w); [exact HJ|split; assumption|exact Hadd].
  - unfold sender_step.
    destruct (nth_error (ready w) i) as [batchMsg|]; [|exact HJ].
    cbn [snd reader sess trace].
    destruct (SendBatch_frame batchMsg (sess w)) as (_ & _ & H3 & _).
    rewrite <- (app_nil_r (trace w)).
    apply cleaned_once_quiet with (s := sess w);
      [exact HJ|split; reflexivity|].
    exists []. now rewrite app_nil_r.
Qed.

Lemma write_loop_cleans_once script :
  forall w,
    listeners_ok (sess w) ->
    cleaned_once (reader w) (sess w) (trace w) ->
    cleaned_once (reader (snd (write_loop script w)))
      (sess (snd (write_loop script w))) (trace (snd (write_loop script w))).
Proof.
  induction script as [|t rest IH]; intros w Hok HJ; simpl.
  - exact HJ.
  - pose proof (cleaned_once_step t w Hok HJ) as Hstep.
    pose proof (step_keeps listeners_ok any_call
                  (fun c s0 _ => call_listeners_ok c s0) (fun b s0 H0 => H0)
                  (fun q s0 H0 => H0) (call_listeners_ok CallClosed) t w) as Hok'.
    destruct (step t w) as [o w']. cbn [snd] in *.
    destruct o; try exact Hstep.
    apply IH; [|exact Hstep]. apply Hok'; [|exact Hok].
    destruct t; reflexivity.
Qed.

Lemma Start_cleans_once script s o r s' tr :
  listeners_ok s ->
  Start script s = (o, r, s', tr) ->
  (conn_closes tr <= 1)%nat /\
  exists later, ids (onCloseListeners s') = close_runs tr ++ later.
Proof.
  intros Hok H. unfold Start in H.
  pose proof (write_loop_cleans_once script
                {| reader := Spawned 2048; writer := AtTest; waiting := [];
                   ready := []; sess := set_running true s; trace := [] |}
                Hok) as HJ.
  destruct (write_loop script _) as [o1 w]. cbn [snd] in HJ.
  inversion H; subst.
  destruct HJ as (H1 & H2 & _).
  - split; [apply Nat.le_0_l|]. split; [eexists; reflexivity|].
    intros _. split; reflexivity.
  - split; assumption.
Qed.

(** C1, as the code has it: calling Closed again leaves the session where
    the first call put it (status Closed, not running), but every call on a
    session with a component asks the component to remove the session once
    more, and Closed itself calls no close listener.  The close listeners
    are called by the cleanup of the reader loop: in a run of Start, however
    often Closed is called meanwhile, each of them is called at most once,
    in registration order, and the connection is closed at most once. *)
Theorem Closed_repeated (n : nat) (s : Session) :
  fst (exec_all (repeat (Do CallClosed) (S n)) s) = fst (Closed s) /\
  snd (exec_all (repeat (Do CallClosed) (S n)) s) =
    match sessionComponent s with
    | Some _ => repeat (Remove (sid s)) (S n)
    | None => []
    end /\
  close_runs (snd (exec_all (repeat (Do CallClosed) (S n)) s)) = [] /\
  (forall script o r s' tr,
      listeners_ok s ->
      Start script s = (o, r, s', tr) ->
      (conn_closes tr <= 1)%nat /\
      exists later, ids (onCloseListeners s') = close_runs tr ++ later).
Proof.
  assert (Hmain : forall k s0,
    exec_all (repeat (Do CallClosed) (S k)) s0 =
    (fst (Closed s0),
     match sessionComponent s0 with
     | Some _ => repeat (Remove (sid s0)) (S k)
     | None => []
     end)).
  { induction k as [|k IH]; intros s0.
    - cbn [repeat exec_all exec call].
      pose proof (Closed_events s0) as He.
      destruct (Closed s0) as [s1 tr1]. simpl in *. subst tr1.
      destruct (sessionComponent s0); reflexivity.
    - change (repeat (Do CallClosed) (S (S k)))
        with (Do CallClosed :: repeat (Do CallClosed) (S k)).
      cbn [exec_all exec call].
      pose proof (Closed_events s0) as He.
      pose proof (Closed_fields s0) as (_ & _ & Hsid & Hsc).
      pose proof (Closed_again s0) as Hagain.
      destruct (Closed s0) as [s1 tr1]. simpl in He, Hsid, Hsc, Hagain. subst tr1.
      rewrite IH, Hsc, Hsid, Hagain. cbn [fst].
      destruct (sessionComponent s0); reflexivity. }
  rewrite Hmain. cbn [fst snd].
  split; [reflexivity|]. split; [reflexivity|]. split.
  - destruct (sessionComponent s); [|reflexivity].
    generalize (S n). intros k. induction k as [|k IH]; [reflexivity|exact IH].
  - intros script o r s' tr. apply Start_cleans_once.
Qed.

Lemma Closed_repeated_witness :
  listeners_ok sample /\
  Start [SOther CallClosed; SReader [] None None; SReader [] None None;
         SOther CallClosed; SWriter None] sample =
    (Returned, Gone, fst (Closed sample),
     [Remove 7; RunOnClose 0; RunOnClose 5; ConnClose; Remove 7]) /\
  Nat.le
    (conn_closes [Remove 7; RunOnClose 0; RunOnClose 5; ConnClose; Remove 7]) 1 /\
  exists later,
    ids (onCloseListeners (fst (Closed sample))) =
    close_runs [Remove 7; RunOnClose 0; RunOnClose 5; ConnClose; Remove 7]
      ++ later.
Proof.
  assert (Hok : listeners_ok sample) by (split; repeat constructor).
  split; [exact Hok|]. split; [reflexivity|].
  exact (proj2 (proj2 (proj2 (Closed_repeated 0 sample)))
           [SOther CallClosed; SReader [] None None; SReader [] None None;
         SOther CallClosed; SWriter None]
           Returned Gone (fst (Closed sample)) _ Hok eq_refl).
Defined.

(** C1 as stated fails: two calls of Closed on the sample session ask the
    component to remove it twice, not once, and neither of its two close
    listeners is called. *)
Lemma Closed_twice_removes_twice :
  removes (snd (exec_all [Do CallClosed; Do CallClosed] sample)) = 2%nat /\
  removes (snd (exec_all [Do CallClosed] sample)) = 1%nat /\
  ids (onCloseListeners sample) = [0; 5]%nat /\
  close_runs (snd (exec_all [Do CallClosed; Do CallClosed] sample)) = [].
Proof.
  repeat split.
Qed.

(** * Further properties *)

(** ** The delegating session *)

Lemma wrap64_eq a b : wrap64 a = wrap64 b -> exists k, b - a = k * 2 ^ 64.
Proof.
  unfold wrap64. intros H.
  assert (Hm : (a + 2 ^ 63) mod 2 ^ 64 = (b + 2 ^ 63) mod 2 ^ 64) by lia.
  pose proof (Z.div_mod (a + 2 ^ 63) (2 ^ 64) ltac:(discriminate)) as Ha.
  pose proof (Z.div_mod (b + 2 ^ 63) (2 ^ 64) ltac:(discriminate)) as Hb.
  exists ((b + 2 ^ 63) / 2 ^ 64 - (a + 2 ^ 63) / 2 ^ 64). lia.
Qed.

(** X1: two calls of NextSID less than 2^64 calls apart never return the
    same identifier, also across the wrap of the counter. *)
Theorem NextSID_distinct_within_a_cycle (i j : N) :
  (1 <= i)%N -> (i < j)%N -> (j - i < 2 ^ 64)%N ->
  NetSession.sid_of_call i <> NetSession.sid_of_call j.
Proof.
  intros Hi Hij Hd Heq.
  rewrite !sid_of_call_spec in Heq by lia.
  destruct (wrap64_eq _ _ Heq) as [k Hk].
  assert (Hlt : Z.of_N j - Z.of_N i < 2 ^ 64).
  { change (2 ^ 64) with (Z.of_N (2 ^ 64)). lia. }
  assert (Hpos : 0 < Z.of_N j - Z.of_N i) by lia.
  change (2 ^ 64) with 18446744073709551616 in *. lia.
Qed.

Lemma NextSID_distinct_within_a_cycle_witness :
  (1 <= 1)%N /\ (1 < 2 ^ 64)%N /\ (2 ^ 64 - 1 < 2 ^ 64)%N /\
  NetSession.sid_of_call 1 <> NetSession.sid_of_call (2 ^ 64).
Proof.
  split; [reflexivity|]. split; [reflexivity|]. split; [reflexivity|].
  apply (NextSID_distinct_within_a_cycle 1 (2 ^ 64)); reflexivity.
Defined.

Lemma chain_all ls :
  forallb NetSession.goes_on ls = true ->
  NetSession.chain ls = map NetSession.Listen (NetSession.lids ls).
Proof.
  induction ls as [|l ls IH]; simpl; intros H; [reflexivity|].
  apply andb_true_iff in H as [Hl Hls]. rewrite Hl. f_equal. now apply IH.
Qed.

Lemma chain_stop pre l post :
  forallb NetSession.goes_on pre = true ->
  NetSession.goes_on l = false ->
  NetSession.chain (pre ++ l :: post) =
  map NetSession.Listen (NetSession.lids (pre ++ [l])).
Proof.
  induction pre as [|p pre IH]; simpl; intros Hpre Hl.
  - now rewrite Hl.
  - apply andb_true_iff in Hpre as [Hp Hpre]. rewrite Hp. f_equal. now apply IH.
Qed.

(** X2: NewSession calls the create listeners of the component in order:
    all of them when each answers true, otherwise those up to and including
    the first that answers false.  Whatever they answer, the session is
    returned, with the given identifiers and unbound. *)
Theorem NewSession_create_listeners
    (sid : facade.SID) (frontendId : facade.FrontendId) (has_entity : bool)
    (c : NetSession.Component) :
  (forallb NetSession.goes_on (NetSession.onCreate c) = true ->
     snd (NetSession.NewSession sid frontendId has_entity (Some c)) =
     map NetSession.Listen (NetSession.lids (NetSession.onCreate c))) /\
  (forall pre l post,
     NetSession.onCreate c = pre ++ l :: post ->
     forallb NetSession.goes_on pre = true ->
     NetSession.goes_on l = false ->
     snd (NetSession.NewSession sid frontendId has_entity (Some c)) =
     map NetSession.Listen (NetSession.lids (pre ++ [l]))) /\
  snd (NetSession.NewSession sid frontendId has_entity None) = [] /\
  (forall oc,
     let r := fst (NetSession.NewSession sid frontendId has_entity oc) in
     NetSession.SID r = sid /\ NetSession.FrontendId r = frontendId /\
     NetSession.UID r = 0 /\ NetSession.IsBind r = false).
Proof.
  split; [|split; [|split]].
  - intros H. simpl. now apply chain_all.
  - intros pre l post Heq Hpre Hl. simpl. rewrite Heq. now apply chain_stop.
  - reflexivity.
  - intros oc. repeat split.
Qed.

Lemma NewSession_create_listeners_witness :
  NetSession.onCreate NetSession.guarded =
    [ {| NetSession.lid := 1; NetSession.goes_on := true |} ]
    ++ {| NetSession.lid := 2; NetSession.goes_on := false |}
    :: [ {| NetSession.lid := 3; NetSession.goes_on := true |} ] /\
  snd (NetSession.NewSession 7 "node-1"%string true (Some NetSession.guarded)) =
    [NetSession.Listen 1; NetSession.Listen 2].
Proof.
  split; [reflexivity|].
  apply (proj1 (proj2 (NewSession_create_listeners 7 "node-1"%string true
                         NetSession.guarded))
           [ {| NetSession.lid := 1; NetSession.goes_on := true |} ]
           {| NetSession.lid := 2; NetSession.goes_on := false |}
           [ {| NetSession.lid := 3; NetSession.goes_on := true |} ]);
    reflexivity.
Defined.

Lemma chain_unbinds ls : NetSession.unbinds (NetSession.chain ls) = 0%nat.
Proof.
  induction ls as [|l ls IH]; simpl; [reflexivity|].
  destruct (NetSession.goes_on l); [exact IH|reflexivity].
Qed.

Lemma unbinds_app tr1 tr2 :
  NetSession.unbinds (tr1 ++ tr2) =
  (NetSession.unbinds tr1 + NetSession.unbinds tr2)%nat.
Proof. unfold NetSession.unbinds. now rewrite filter_app, length_app. Qed.

(** X3: OnCloseProcess asks the component to unbind the session exactly
    once, as its last step, whatever the close listeners answer: a listener
    that answers false cuts the chain of listeners short, not the unbind. *)
Theorem OnCloseProcess_unbinds_once (r : NetSession.Session) :
  NetSession.unbinds (NetSession.OnCloseProcess r) = 1%nat /\
  (exists listened,
     NetSession.OnCloseProcess r =
       listened ++ [NetSession.ComponentUnbind (NetSession.sid r)] /\
     NetSession.unbinds listened = 0%nat) /\
  (forall c pre l post,
     NetSession.component r = Some c ->
     NetSession.onClose c = pre ++ l :: post ->
     forallb NetSession.goes_on pre = true ->
     NetSession.goes_on l = false ->
     NetSession.OnCloseProcess r =
       map NetSession.Listen (NetSession.lids (pre ++ [l]))
       ++ [NetSession.ComponentUnbind (NetSession.sid r)]).
Proof.
  unfold NetSession.OnCloseProcess, NetSession.Unbind.
  split; [|split].
  - rewrite unbinds_app.
    destruct (NetSession.component r) as [c|]; [|reflexivity].
    now rewrite chain_unbinds.
  - eexists. split; [reflexivity|].
    destruct (NetSession.component r) as [c|]; [apply chain_unbinds|reflexivity].
  - intros c pre l post Hc Heq Hpre Hl. rewrite Hc, Heq.
    now rewrite chain_stop.
Qed.

Lemma OnCloseProcess_unbinds_once_witness :
  NetSession.OnCloseProcess
    (fst (NetSession.NewSession 7 "node-1"%string true (Some NetSession.guarded))) =
  [NetSession.Listen 4; NetSession.ComponentUnbind 7].
Proof.
  apply (proj2 (proj2 (OnCloseProcess_unbinds_once
                         (fst (NetSession.NewSession 7 "node-1"%string true
                                 (Some NetSession.guarded)))))
           NetSession.guarded []
           {| NetSession.lid := 4; NetSession.goes_on := false |}
           [ {| NetSession.lid := 5; NetSession.goes_on := true |} ]);
    reflexivity.
Defined.

(** X4: Kick always delivers the kick to the entity first; it goes on to
    close the entity only when the kick succeeded and closing was asked
    for.  A failed kick closes nothing. *)
Theorem Kick_closes_only_after_success
    (answer : option Error) (reason : string) (close : bool)
    (r : NetSession.Session) :
  NetSession.has_entity r = true ->
  NetSession.Kick answer reason close r =
    (Returned, [NetSession.EntityKick reason],
     match answer with
     | None => if close then [NetSession.EntityClose] else []
     | Some _ => []
     end).
Proof.
  intros H. unfold NetSession.Kick, NetSession.Close. rewrite H.
  destruct answer, close; reflexivity.
Qed.

Lemma Kick_closes_only_after_success_witness :
  NetSession.has_entity
    (fst (NetSession.NewSession 7 "node-1"%string true None)) = true /\
  NetSession.Kick (Some (Failure "gone")) "bye" true
    (fst (NetSession.NewSession 7 "node-1"%string true None)) =
    (Returned, [NetSession.EntityKick "bye"], []).
Proof.
  split; [reflexivity|].
  apply (Kick_closes_only_after_success (Some (Failure "gone")) "bye" true).
  reflexivity.
Defined.

(** X5: on a session without entity, SendRaw returns nil without sending
    and RemoteAddress returns the empty string, while RPC, Push, Response,
    Kick and Close panic on the nil entity before doing anything. *)
Theorem without_entity
    (answer : option Error) (b : bytes) (route reason addr : string)
    (mid : Z) (v : nat) (close : bool) (r : NetSession.Session) :
  NetSession.has_entity r = false ->
  NetSession.SendRaw answer b r = (Returned, None, []) /\
  NetSession.RemoteAddress addr r = EmptyString /\
  NetSession.RPC answer route v r = (Panicked nil_call, None, []) /\
  NetSession.Push answer route v r = (Panicked nil_call, None, []) /\
  NetSession.Response answer mid v r = (Panicked nil_call, None, []) /\
  NetSession.Kick answer reason close r = (Panicked nil_call, [], []) /\
  NetSession.Close r = (Panicked nil_call, []).
Proof.
  intros H.
  unfold NetSession.SendRaw, NetSession.RemoteAddress, NetSession.RPC,
    NetSession.Push, NetSession.Response, NetSession.Kick, NetSession.Close.
  rewrite H. repeat split.
Qed.

Lemma without_entity_witness :
  NetSession.has_entity
    (fst (NetSession.NewSession 7 "node-1"%string false None)) = false /\
  NetSession.SendRaw (Some (Failure "x")) [x01]
    (fst (NetSession.NewSession 7 "node-1"%string false None)) =
    (Returned, None, []).
Proof.
  split; [reflexivity|].
  apply (without_entity (Some (Failure "x")) [x01] "r" "bye" "addr" 0 0 false).
  reflexivity.
Defined.

(** ** The connection-owning session: its fields *)

Lemma call_identity c s :
  sid (fst (call c s)) = sid s /\
  frontendId (fst (call c s)) = frontendId s /\
  sessionComponent (fst (call c s)) = sessionComponent s /\
  lastTime (fst (call c s)) = lastTime s.
Proof.
  destruct c as [v|u|l|l|l|m|ms|]; simpl.
  - repeat split.
  - unfold Bind. destruct (u <? 1); repeat split.
  - unfold OnClose. destruct (negb (is_nil l)); repeat split.
  - unfold OnError. destruct (negb (is_nil l)); repeat split.
  - unfold OnMessage. destruct (negb (is_nil l)); repeat split.
  - unfold Send. destruct (negb (running s)); repeat split.
  - destruct (SendBatch_queues ms s) as [q ->]. repeat split.
  - destruct s as [st ru si ui fr [cc|] lt ch oc oe om]; repeat split.
Qed.

(** X7: no operation on a session changes its sid, its frontend id, its
    session component or its lastTime: whatever is done with the session,
    these are as NewSession, or the caller, left them. *)
Theorem identity_never_changes (ops : list Op) (s : Session) :
  SID (fst (exec_all ops s)) = SID s /\
  FrontendId (fst (exec_all ops s)) = FrontendId s /\
  sessionComponent (fst (exec_all ops s)) = sessionComponent s /\
  lastTime (fst (exec_all ops s)) = lastTime s.
Proof.
  apply (exec_all_keeps
    (fun x => sid x = sid s /\ frontendId x = frontendId s /\
              sessionComponent x = sessionComponent s /\
              lastTime x = lastTime s) any_call).
  - intros c x _ (H1 & H2 & H3 & H4).
    destruct (call_identity c x) as (E1 & E2 & E3 & E4).
    rewrite E1, E2, E3, E4. repeat split; assumption.
  - intros b x H. exact H.
  - intros q x H. exact H.
  - intros x (H1 & H2 & H3 & H4).
    destruct (call_identity CallClosed x) as (E1 & E2 & E3 & E4).
    cbn [call] in *. rewrite E1, E2, E3, E4. repeat split; assumption.
  - apply any_op_within.
  - repeat split.
Qed.

Lemma call_uid c s :
  not_Bind c = true -> uid (fst (call c s)) = uid s.
Proof.
  intros Hc. destruct c as [v|u|l|l|l|m|ms|]; simpl in *; try discriminate;
    try reflexivity.
  - unfold OnClose. destruct (negb (is_nil l)); reflexivity.
  - unfold OnError. destruct (negb (is_nil l)); reflexivity.
  - unfold OnMessage. destruct (negb (is_nil l)); reflexivity.
  - unfold Send. destruct (negb (running s)); reflexivity.
  - destruct (SendBatch_queues ms s) as [q ->]. reflexivity.
  - destruct s as [st ru si ui fr [cc|] lt ch oc oe om]; reflexivity.
Qed.

Lemma call_uid_from k c s :
  k <= 1 -> k <= uid s -> k <= uid (fst (call c s)).
Proof.
  intros Hk H. destruct c as [v|u|l|l|l|m|ms|];
    try (rewrite call_uid by reflexivity; exact H).
  simpl. unfold Bind. destruct (u <? 1) eqn:Hu; simpl; [exact H|].
  apply Z.ltb_ge in Hu. lia.
Qed.

(** X8: the uid of a session is changed by Bind only; it is never negative
    on a session made by NewSession; and a session that is bound stays
    bound: this session has no way back to uid 0. *)
Theorem uid_changes_by_Bind_only (ops : list Op) (s : Session) :
  (forallb (op_within not_Bind) ops = true ->
     UID (fst (exec_all ops s)) = UID s) /\
  (forall sid sc now, 0 <= UID (fst (exec_all ops (NewSession sid sc now)))) /\
  (1 <= UID s -> 1 <= UID (fst (exec_all ops s))).
Proof.
  split; [|split].
  - intros Hops.
    apply (exec_all_keeps (fun x => uid x = uid s) not_Bind); auto.
    + intros c x Hc Hx. now rewrite call_uid.
    + intros x Hx. now rewrite (call_uid CallClosed).
  - intros sid0 sc now.
    apply (exec_all_keeps (fun x => 0 <= uid x) any_call); auto.
    + intros c x _. apply call_uid_from. lia.
    + intros x Hx. now rewrite (call_uid CallClosed).
    + apply any_op_within.
    + simpl. lia.
  - intros Hs.
    apply (exec_all_keeps (fun x => 1 <= uid x) any_call); auto.
    + intros c x _. apply call_uid_from. lia.
    + intros x Hx. now rewrite (call_uid CallClosed).
    + apply any_op_within.
Qed.

Lemma uid_changes_by_Bind_only_witness :
  1 <= UID (snd (Bind 42 sample)) /\
  1 <= UID (fst (exec_all
                   [Do (CallBind 0); Do CallClosed;
                    DoReadPackets 16 [Other (CallBind (-3))]]
                   (snd (Bind 42 sample)))).
Proof.
  split; [discriminate|].
  apply (proj2 (proj2 (uid_changes_by_Bind_only
                         [Do (CallBind 0); Do CallClosed;
                          DoReadPackets 16 [Other (CallBind (-3))]]
                         (snd (Bind 42 sample))))).
  discriminate.
Defined.

Lemma bind_all_invalid uids :
  forall s, Forall (fun u => u < 1) uids -> bind_all uids s = s.
Proof.
  induction uids as [|u uids IH]; intros s H; [reflexivity|].
  inversion H as [|? ? Hu Hrest]; subst.
  unfold bind_all in *. simpl. unfold Bind at 2.
  apply Z.ltb_lt in Hu. rewrite Hu. simpl. now apply IH.
Qed.

(** X9: binding again overwrites: after a run of Bind calls the uid is the
    last one that was at least 1, the refused ones in between and after
    leave no trace, and a run of refused calls only leaves the session as
    it was. *)
Theorem last_valid_Bind_wins
    (before after : list facade.UID) (u : facade.UID) (s : Session) :
  1 <= u ->
  Forall (fun x => x < 1) after ->
  bind_all (before ++ u :: after) s = set_uid u (bind_all before s) /\
  UID (bind_all (before ++ u :: after) s) = u /\
  bind_all after s = s.
Proof.
  intros Hu Hafter.
  assert (Heq : bind_all (before ++ u :: after) s = set_uid u (bind_all before s)).
  { unfold bind_all. rewrite fold_left_app. simpl.
    fold (bind_all before s). unfold Bind at 2.
    assert (Hlt : (u <? 1) = false) by (apply Z.ltb_ge; lia).
    rewrite Hlt. simpl.
    exact (bind_all_invalid after _ Hafter). }
  split; [exact Heq|]. split; [now rewrite Heq|].
  now apply bind_all_invalid.
Qed.

Lemma last_valid_Bind_wins_witness :
  1 <= 42 /\ Forall (fun x => x < 1) [0; -5] /\
  UID (bind_all ([7; 0] ++ 42 :: [0; -5]) sample) = 42.
Proof.
  assert (H1 : 1 <= 42) by discriminate.
  assert (H2 : Forall (fun x => x < 1) [0; -5]) by (repeat constructor).
  split; [exact H1|]. split; [exact H2|].
  apply (last_valid_Bind_wins [7; 0] [0; -5] 42 sample H1 H2).
Defined.

(** ** Listener registration, in order *)

Lemma set_onCloseListeners_same s : set_onCloseListeners (onCloseListeners s) s = s.
Proof. destruct s; reflexivity. Qed.

Lemma set_onErrorListeners_same s : set_onErrorListeners (onErrorListeners s) s = s.
Proof. destruct s; reflexivity. Qed.

Lemma register_OnClose ls :
  forall s,
    register_all OnClose ls s =
    set_onCloseListeners (onCloseListeners s ++ non_nil ls) s.
Proof.
  induction ls as [|l ls IH]; intros s.
  - simpl. now rewrite app_nil_r, set_onCloseListeners_same.
  - unfold register_all in *. simpl. rewrite IH. unfold OnClose.
    destruct (is_nil l); simpl; [reflexivity|].
    unfold set_onCloseListeners. simpl. now rewrite <- app_assoc.
Qed.

Lemma register_OnError ls :
  forall s,
    register_all OnError ls s =
    set_onErrorListeners (onErrorListeners s ++ non_nil ls) s.
Proof.
  induction ls as [|l ls IH]; intros s.
  - simpl. now rewrite app_nil_r, set_onErrorListeners_same.
  - unfold register_all in *. simpl. rewrite IH. unfold OnError.
    destruct (is_nil l); simpl; [reflexivity|].
    unfold set_onErrorListeners. simpl. now rewrite <- app_assoc.
Qed.

Lemma non_nil_no_nil ls : no_nil (non_nil ls).
Proof.
  induction ls as [|l ls IH]; simpl; [constructor|].
  destruct l as [|i]; simpl; [exact IH|]. constructor; [reflexivity|exact IH].
Qed.

Lemma ids_non_nil ls : ids (non_nil ls) = ids ls.
Proof.
  induction ls as [|l ls IH]; simpl; [reflexivity|].
  destruct l as [|i]; simpl; [exact IH|]. now rewrite IH.
Qed.

Lemma readPackets_idle readSize s l :
  running s = false ->
  onMessageListener s = closure l ->
  no_nil (onCloseListeners s) ->
  readPackets readSize [] s =
  (Returned, s, map RunOnClose (ids (onCloseListeners s)) ++ [ConnClose]).
Proof.
  intros Hr Hl Hok. unfold readPackets. rewrite Hl. simpl. rewrite Hr.
  unfold deferred. now rewrite (call_all_ok RunOnClose _ Hok).
Qed.

(** X10: OnClose and OnError append: after any run of registrations the
    slice holds what it held before followed by the listeners registered
    that were not nil, in the order of registration, and the other slice is
    untouched.  So the cleanup of a session made by NewSession calls the
    logging listener first and then the registered ones in that order. *)
Theorem listeners_registered_in_order (ls : list Func) (s : Session) :
  onCloseListeners (register_all OnClose ls s) = onCloseListeners s ++ non_nil ls /\
  onErrorListeners (register_all OnClose ls s) = onErrorListeners s /\
  onErrorListeners (register_all OnError ls s) = onErrorListeners s ++ non_nil ls /\
  onCloseListeners (register_all OnError ls s) = onCloseListeners s /\
  (forall sid sc now l readSize,
     snd (readPackets readSize []
            (OnMessage (closure l)
               (register_all OnClose ls (NewSession sid sc now)))) =
     map RunOnClose (0%nat :: ids ls) ++ [ConnClose]).
Proof.
  rewrite register_OnClose, register_OnError.
  split; [reflexivity|]. split; [reflexivity|].
  split; [reflexivity|]. split; [reflexivity|].
  intros sid0 sc now l readSize.
  rewrite register_OnClose.
  rewrite (readPackets_idle readSize _ l); try reflexivity.
  - cbn [snd]. simpl onCloseListeners.
    change (logOnClosed :: non_nil ls) with (non_nil (logOnClosed :: ls)).
    now rewrite ids_non_nil.
  - simpl onCloseListeners.
    change (logOnClosed :: non_nil ls) with (non_nil (logOnClosed :: ls)).
    apply non_nil_no_nil.
Qed.

Lemma onMessage_nils ls :
  forall s, Forall (fun f => is_nil f = true) ls ->
            register_all OnMessage ls s = s.
Proof.
  induction ls as [|l ls IH]; intros s H; [reflexivity|].
  inversion H as [|? ? Hl Hrest]; subst.
  unfold register_all in *. simpl. unfold OnMessage at 2. rewrite Hl. simpl.
  now apply IH.
Qed.

Lemma dispatch_targets_app tr1 tr2 :
  dispatch_targets (tr1 ++ tr2) = dispatch_targets tr1 ++ dispatch_targets tr2.
Proof. apply flat_map_app. Qed.

Lemma call_onMessageListener c s :
  not_OnMessage c = true ->
  onMessageListener (fst (call c s)) = onMessageListener s.
Proof.
  intros Hc. destruct c as [v|u|l|l|l|m|ms|]; simpl in *; try discriminate;
    try reflexivity.
  - unfold Bind. destruct (u <? 1); reflexivity.
  - unfold OnClose. destruct (negb (is_nil l)); reflexivity.
  - unfold OnError. destruct (negb (is_nil l)); reflexivity.
  - unfold Send. destruct (negb (running s)); reflexivity.
  - destruct (SendBatch_queues ms s) as [q ->]. reflexivity.
  - destruct s as [st ru si ui fr [cc|] lt ch oc oe om]; reflexivity.
Qed.

Lemma call_no_dispatch c s : dispatch_targets (snd (call c s)) = [].
Proof.
  destruct c as [v|u|l|l|l|m|ms|]; try reflexivity.
  simpl. rewrite Closed_events. destruct (sessionComponent s); reflexivity.
Qed.

Lemma call_all_no_dispatch ev ls :
  (forall i, dispatch_targets [ev i] = []) ->
  dispatch_targets (fst (call_all ev ls)) = [].
Proof.
  intros Hev. induction ls as [|f ls IH]; simpl; [reflexivity|].
  destruct f as [|i]; [reflexivity|].
  destruct (call_all ev ls) as [evs ok]. cbn [fst] in *.
  change (ev i :: evs) with ([ev i] ++ evs).
  now rewrite dispatch_targets_app, Hev, IH.
Qed.

Lemma read_loop_targets script l :
  forall buf s tr,
    onMessageListener s = closure l ->
    forallb (rtick_within not_OnMessage) script = true ->
    Forall (fun x => x = l) (dispatch_targets tr) ->
    Forall (fun x => x = l) (dispatch_targets (snd (read_loop script buf s tr))).
Proof.
  induction script as [|t rest IH]; intros buf s tr Hl Hall Htr; simpl.
  - destruct (running s); exact Htr.
  - simpl in Hall. apply andb_true_iff in Hall as [Ht Hrest].
    destruct t as [data err answer|c].
    + destruct (running s); [|exact Htr].
      unfold read_turn. destruct (conn_Read data buf) as [n buf'].
      destruct err as [e|].
      * pose proof (call_all_no_dispatch RunOnError (onErrorListeners s)
                      (fun i => eq_refl)) as Hno.
        destruct (call_all RunOnError (onErrorListeners s)) as [evs [|]];
          cbn [fst snd] in *;
          change (ConnRead (firstn n data) (Some e) :: evs)
            with ([ConnRead (firstn n data) (Some e)] ++ evs);
          rewrite !dispatch_targets_app, Hno, !app_nil_r; exact Htr.
      * destruct (n <? 1)%nat.
        -- apply IH; [exact Hl|exact Hrest|].
           rewrite dispatch_targets_app, app_nil_r. exact Htr.
        -- rewrite Hl. destruct answer.
           ++ cbn [snd]. rewrite dispatch_targets_app.
              apply Forall_app. split; [exact Htr|]. repeat constructor.
           ++ apply IH; [exact Hl|exact Hrest|].
              rewrite dispatch_targets_app.
              apply Forall_app. split; [exact Htr|]. repeat constructor.
    + simpl in Ht.
      pose proof (call_onMessageListener c s Ht) as Hsame.
      pose proof (call_no_dispatch c s) as Hno.
      destruct (call c s) as [s' evs]. cbn [fst snd] in *.
      apply IH; [now rewrite Hsame|exact Hrest|].
      now rewrite dispatch_targets_app, Hno, app_nil_r.
Qed.

(** X11: OnMessage replaces: of a run of registrations the last listener
    that is not nil is the one in place; and as long as no other context
    registers another one, every message readPackets dispatches goes to the
    listener that was in place when it started. *)
Theorem message_listener_last_wins
    (before after : list Func) (l : nat) (s : Session)
    (readSize : nat) (script : list RTick) :
  Forall (fun f => is_nil f = true) after ->
  forallb (rtick_within not_OnMessage) script = true ->
  onMessageListener (register_all OnMessage (before ++ closure l :: after) s)
    = closure l /\
  Forall (fun x => x = l)
    (dispatch_targets
       (snd (readPackets readSize script
               (register_all OnMessage (before ++ closure l :: after) s)))).
Proof.
  intros Hafter Hscript.
  assert (Hl : onMessageListener
                 (register_all OnMessage (before ++ closure l :: after) s)
               = closure l).
  { unfold register_all. rewrite fold_left_app. simpl.
    fold (register_all OnMessage before s).
    fold (register_all OnMessage after
            (OnMessage (closure l) (register_all OnMessage before s))).
    now rewrite onMessage_nils. }
  split; [exact Hl|].
  set (s1 := register_all OnMessage (before ++ closure l :: after) s) in *.
  unfold readPackets. rewrite Hl.
  pose proof (read_loop_targets script l (make readSize) s1 [] Hl Hscript
                (Forall_nil _)) as Hloop.
  destruct (read_loop script (make readSize) s1 []) as [[o s'] tr].
  cbn [snd] in Hloop.
  assert (Hdef : dispatch_targets (snd (deferred o s' tr)) = dispatch_targets tr).
  { unfold deferred.
    pose proof (call_all_no_dispatch RunOnClose (onCloseListeners s')
                  (fun i => eq_refl)) as Hno.
    destruct (call_all RunOnClose (onCloseListeners s')) as [evs [|]];
      cbn [fst snd] in *; rewrite ?dispatch_targets_app, Hno; cbn;
      now rewrite ?app_nil_r. }
  destruct o; cbn [snd]; try rewrite Hdef; exact Hloop.
Qed.

Lemma message_listener_last_wins_witness :
  Forall (fun f => is_nil f = true) [nilFunc] /\
  Forall (fun x => x = 4%nat)
    (dispatch_targets
       (snd (readPackets 8 [Rd [x01] None None; Rd [x02] None None]
               (register_all OnMessage ([closure 3] ++ closure 4 :: [nilFunc])
                  (set_running true sample))))) /\
  List.length
    (dispatch_targets
       (snd (readPackets 8 [Rd [x01] None None; Rd [x02] None None]
               (register_all OnMessage ([closure 3] ++ closure 4 :: [nilFunc])
                  (set_running true sample))))) = 2%nat.
Proof.
  assert (H : Forall (fun f => is_nil f = true) [nilFunc]) by (repeat constructor).
  split; [exact H|]. split; [|reflexivity].
  exact (proj2 (message_listener_last_wins [closure 3] [nilFunc] 4
                  (set_running true sample) 8
                  [Rd [x01] None None; Rd [x02] None None] H eq_refl)).
Defined.

(** ** A session that is not running *)

Lemma call_not_running c s :
  running s = false ->
  running (fst (call c s)) = false /\ sendChan (fst (call c s)) = sendChan s.
Proof.
  intros Hr. destruct c as [v|u|l|l|l|m|ms|]; simpl.
  - split; [exact Hr|reflexivity].
  - unfold Bind. destruct (u <? 1); split; try exact Hr; reflexivity.
  - unfold OnClose. destruct (negb (is_nil l)); split; try exact Hr; reflexivity.
  - unfold OnError. destruct (negb (is_nil l)); split; try exact Hr; reflexivity.
  - unfold OnMessage. destruct (negb (is_nil l)); split; try exact Hr; reflexivity.
  - unfold Send. rewrite Hr. simpl. split; [exact Hr|reflexivity].
  - rewrite SendBatch_stopped by exact Hr. split; [exact Hr|reflexivity].
  - destruct s as [st ru si ui fr [cc|] lt ch oc oe om]; split; reflexivity.
Qed.

Lemma reads_app tr1 tr2 : reads (tr1 ++ tr2) = (reads tr1 + reads tr2)%nat.
Proof. unfold reads. now rewrite filter_app, length_app. Qed.

Lemma call_no_read c s : reads (snd (call c s)) = 0%nat.
Proof.
  destruct c as [v|u|l|l|l|m|ms|]; try reflexivity.
  simpl. rewrite Closed_events. destruct (sessionComponent s); reflexivity.
Qed.

Lemma read_loop_not_running script :
  forall buf s tr,
    running s = false ->
    fst (fst (read_loop script buf s tr)) = Returned /\
    running (snd (fst (read_loop script buf s tr))) = false /\
    sendChan (snd (fst (read_loop script buf s tr))) = sendChan s /\
    reads (snd (read_loop script buf s tr)) = reads tr.
Proof.
  induction script as [|t rest IH]; intros buf s tr Hr; simpl.
  - rewrite Hr. repeat split. exact Hr.
  - destruct t as [data err answer|c].
    + rewrite Hr. repeat split. exact Hr.
    + destruct (call_not_running c s Hr) as [Hr' Hq].
      pose proof (call_no_read c s) as Hno.
      destruct (call c s) as [s' evs]. cbn [fst snd] in *.
      destruct (IH buf s' (tr ++ evs) Hr') as (H1 & H2 & H3 & H4).
      rewrite H1, H2, H3, H4, Hq, reads_app, Hno, Nat.add_0_r.
      repeat split.
Qed.

Lemma call_all_no_read ev ls :
  (forall i, reads [ev i] = 0%nat) -> reads (fst (call_all ev ls)) = 0%nat.
Proof.
  intros Hev. induction ls as [|f ls IH]; simpl; [reflexivity|].
  destruct f as [|i]; [reflexivity|].
  destruct (call_all ev ls) as [evs ok]. cbn [fst] in *.
  change (ev i :: evs) with ([ev i] ++ evs).
  now rewrite reads_app, Hev, IH.
Qed.

Lemma deferred_no_read o s tr : reads (snd (deferred o s tr)) = reads tr.
Proof.
  unfold deferred.
  pose proof (call_all_no_read RunOnClose (onCloseListeners s)
                (fun i => eq_refl)) as Hno.
  destruct (call_all RunOnClose (onCloseListeners s)) as [evs [|]];
    cbn [fst snd] in *; rewrite ?reads_app, Hno; cbn; lia.
Qed.

(** X12: only Start sets the running flag.  On a session that is not
    running, no sequence of other operations, readPackets included, makes
    it run or puts anything on the send channel: every Send in between is
    dropped. *)
Theorem stopped_stays_stopped (ops : list Op) (s : Session) :
  running s = false ->
  forallb not_Start ops = true ->
  running (fst (exec_all ops s)) = false /\
  sendChan (fst (exec_all ops s)) = sendChan s.
Proof.
  revert s. induction ops as [|o rest IH]; intros s Hr Hops; simpl.
  - split; [exact Hr|reflexivity].
  - simpl in Hops. apply andb_true_iff in Hops as [Ho Hrest].
    assert (Hstep : running (fst (exec o s)) = false /\
                    sendChan (fst (exec o s)) = sendChan s).
    { destruct o as [c|script|readSize script]; [|discriminate|].
      - apply call_not_running. exact Hr.
      - simpl. unfold readPackets.
        destruct (onMessageListener s); [split; [exact Hr|reflexivity]|].
        destruct (read_loop_not_running script (make readSize) s [] Hr)
          as (H1 & H2 & H3 & _).
        destruct (read_loop script (make readSize) s []) as [[o s'] tr].
        cbn [fst snd] in *. subst o.
        pose proof (deferred_session Returned s' tr) as Hd.
        destruct (deferred Returned s' tr) as [[o' s''] tr'].
        cbn [fst snd] in *. subst s''. split; assumption. }
    destruct (exec o s) as [s1 tr1]. cbn [fst] in Hstep.
    destruct Hstep as [Hr1 Hq1].
    destruct (IH s1 Hr1 Hrest) as [H1 H2].
    destruct (exec_all rest s1) as [s2 tr2]. cbn [fst] in *.
    split; [exact H1|]. now rewrite H2.
Qed.

Lemma stopped_stays_stopped_witness :
  running (fst (Closed (set_running true sample))) = false /\
  sendChan
    (fst (exec_all
            [Do (CallSend [x01]); Do (CallSendBatch [[x02]; [x03]]);
             DoReadPackets 8 [Other (CallSend [x04]); Rd [x05] None None]]
            (fst (Closed (set_running true sample))))) = [].
Proof.
  split; [reflexivity|].
  apply (stopped_stays_stopped
           [Do (CallSend [x01]); Do (CallSendBatch [[x02]; [x03]]);
            DoReadPackets 8 [Other (CallSend [x04]); Rd [x05] None None]]
           (fst (Closed (set_running true sample)))); reflexivity.
Defined.

(** X13: called on a session that is not running, readPackets reads
    nothing: it goes straight to its cleanup, calls the close listeners and
    closes the connection, whatever the script offers. *)
Theorem readPackets_when_not_running
    (readSize : nat) (script : list RTick) (s : Session) :
  running s = false ->
  onMessageListener s <> nilFunc ->
  listeners_ok s ->
  fst (fst (readPackets readSize script s)) = Returned /\
  reads (snd (readPackets readSize script s)) = 0%nat /\
  dispatched (snd (readPackets readSize script s)) = [] /\
  close_runs (snd (readPackets readSize script s)) =
    ids (onCloseListeners (snd (fst (readPackets readSize script s)))) /\
  conn_closes (snd (readPackets readSize script s)) = 1%nat.
Proof.
  intros Hr Hl Hok.
  pose proof (readPackets_keeps listeners_ok any_call
                (fun c s0 _ => call_listeners_ok c s0) (fun b s0 H0 => H0)
                readSize script s) as Hkeep.
  assert (Hok' : listeners_ok (snd (fst (readPackets readSize script s)))).
  { apply Hkeep; [|exact Hok].
    apply forallb_forall. intros t _. destruct t; reflexivity. }
  clear Hkeep.
  assert (Hdisp : dispatched (snd (readPackets readSize script s))
                  = delivered (snd (readPackets readSize script s))).
  { unfold readPackets.
    destruct (onMessageListener s) as [|l] eqn:E; [reflexivity|].
    assert (Hnil : is_nil (onMessageListener s) = false) by now rewrite E.
    pose proof (read_loop_dispatch script (make readSize) s [] Hnil eq_refl) as H.
    destruct (read_loop script (make readSize) s []) as [[o s'] tr].
    cbn [snd] in H. destruct (deferred_silent o s' tr) as [H1 H2].
    destruct o; cbn [snd]; try (rewrite H1, H2); exact H. }
  unfold readPackets in *.
  destruct (onMessageListener s) as [|l]; [contradiction|].
  destruct (read_loop_not_running script (make readSize) s [] Hr)
    as (H1 & H2 & H3 & H4).
  pose proof (read_loop_shape script (make readSize) s []) as Hshape.
  destruct (read_loop script (make readSize) s []) as [[o s'] tr].
  cbn [fst snd] in *. subst o.
  specialize (Hshape Returned s' tr Hok eq_refl eq_refl).
  assert (Hquiet : forallb loop_event tr = true).
  { destruct Hshape as [Hq|(before & got & e & _ & Heq)]; [exact Hq|].
    exfalso. rewrite Heq, reads_app in H4. unfold reads at 2 in H4.
    simpl in H4. unfold reads at 2 in H4. simpl in H4. lia. }
  destruct (loop_events_quiet tr Hquiet) as (Ht1 & Ht2 & _).
  pose proof (deferred_no_read Returned s' tr) as Hreads.
  pose proof (deferred_session Returned s' tr) as Hsess.
  assert (Hzero : reads (snd (deferred Returned s' tr)) = 0%nat).
  { rewrite Hreads, H4. reflexivity. }
  rewrite Hsess in *. unfold deferred in *.
  destruct Hok' as [Hclose _].
  rewrite (call_all_ok RunOnClose _ Hclose) in *. cbn [fst snd] in *.
  split; [reflexivity|]. split; [exact Hzero|].
  assert (Hnone : delivered (tr ++ map RunOnClose (ids (onCloseListeners s'))
                                ++ [ConnClose]) = []).
  { clear - Hzero. revert Hzero.
    generalize (tr ++ map RunOnClose (ids (onCloseListeners s')) ++ [ConnClose]).
    intros evs. induction evs as [|ev evs IH]; [reflexivity|].
    destruct ev; try (intros H; apply IH; exact H).
    unfold reads. simpl. discriminate. }
  split; [now rewrite Hdisp, Hnone|].
  rewrite close_runs_app, conn_closes_app, Ht1, Ht2,
    close_runs_of_listeners, conn_closes_of_listeners.
  split; reflexivity.
Qed.

Lemma readPackets_when_not_running_witness :
  running sample = false /\
  onMessageListener sample <> nilFunc /\
  listeners_ok sample /\
  reads (snd (readPackets 8 [Rd [x01] None None; Rd [x02] None None] sample))
    = 0%nat.
Proof.
  assert (Hok : listeners_ok sample) by (split; repeat constructor).
  assert (Hl : onMessageListener sample <> nilFunc) by discriminate.
  split; [reflexivity|]. split; [exact Hl|]. split; [exact Hok|].
  apply (readPackets_when_not_running 8
           [Rd [x01] None None; Rd [x02] None None] sample eq_refl Hl Hok).
Defined.

(** ** How the reader loop ends, and what it lets through *)

Lemma read_loop_blocked script :
  forall buf s tr,
    fst (fst (read_loop script buf s tr)) = Blocked ->
    forallb (fun t => negb (is_failed_read t)) script = true.
Proof.
  induction script as [|t rest IH]; intros buf s tr H; simpl in *.
  - reflexivity.
  - destruct t as [data err answer|c].
    + destruct (running s); [|discriminate].
      unfold read_turn in H. destruct (conn_Read data buf) as [n buf'].
      destruct err as [e|].
      * destruct (call_all RunOnError (onErrorListeners s)) as [evs [|]];
          discriminate.
      * simpl. destruct (n <? 1)%nat; [exact (IH _ _ _ H)|].
        destruct (onMessageListener s); [discriminate|].
        destruct answer; [discriminate|exact (IH _ _ _ H)].
    + simpl. destruct (call c s) as [s' evs]. exact (IH _ _ _ H).
Qed.

Lemma read_loop_no_panic script :
  forall buf s tr msg,
    listeners_ok s ->
    is_nil (onMessageListener s) = false ->
    fst (fst (read_loop script buf s tr)) <> Panicked msg.
Proof.
  induction script as [|t rest IH]; intros buf s tr msg Hok Hl; simpl.
  - destruct (running s); discriminate.
  - destruct t as [data err answer|c].
    + destruct (running s); [|discriminate].
      unfold read_turn. destruct (conn_Read data buf) as [n buf'].
      destruct err as [e|].
      * destruct Hok as [_ Herr].
        rewrite (call_all_ok RunOnError _ Herr). discriminate.
      * destruct (n <? 1)%nat; [now apply IH|].
        destruct (onMessageListener s) eqn:E; [discriminate Hl|].
        destruct answer; [discriminate|].
        apply IH; [exact Hok|now rewrite E].
    + pose proof (call_listeners_ok c s Hok) as Hok'.
      pose proof (call_listening c s Hl) as Hl'.
      destruct (call c s) as [s' evs]. now apply IH.
Qed.

(** X14: a read that fails ends the reader: whenever the script holds a
    failing read, readPackets is not left waiting in its loop; with a
    message listener in place and no nil among the listeners it returns. *)
Theorem failed_read_ends_the_loop
    (readSize : nat) (script : list RTick) (s : Session)
    (data : bytes) (e : Error) (answer : option Error) :
  In (Rd data (Some e) answer) script ->
  fst (fst (readPackets readSize script s)) <> Blocked /\
  (onMessageListener s <> nilFunc -> listeners_ok s ->
   fst (fst (readPackets readSize script s)) = Returned).
Proof.
  intros Hin.
  assert (Hnb : fst (fst (readPackets readSize script s)) <> Blocked).
  { unfold readPackets. destruct (onMessageListener s); [discriminate|].
    pose proof (read_loop_blocked script (make readSize) s []) as Hb.
    destruct (read_loop script (make readSize) s []) as [[o s'] tr].
    cbn [fst] in Hb.
    destruct o.
    - unfold deferred.
      destruct (call_all RunOnClose (onCloseListeners s')) as [evs [|]];
        discriminate.
    - exfalso. specialize (Hb eq_refl).
      rewrite forallb_forall in Hb. specialize (Hb _ Hin). discriminate.
    - unfold deferred.
      destruct (call_all RunOnClose (onCloseListeners s')) as [evs [|]];
        discriminate. }
  split; [exact Hnb|].
  intros Hl Hok. unfold readPackets in *.
  destruct (onMessageListener s) as [|l] eqn:El; [contradiction|].
  assert (Hnil : is_nil (onMessageListener s) = false) by now rewrite El.
  pose proof (read_loop_no_panic script (make readSize) s []) as Hnp.
  pose proof (read_loop_keeps listeners_ok any_call
                (fun c s0 _ => call_listeners_ok c s0) (fun b s0 H0 => H0)
                script (make readSize) s []) as Hkeep.
  destruct (read_loop script (make readSize) s []) as [[o s'] tr].
  cbn [fst snd] in *.
  assert (Hok' : listeners_ok s').
  { apply Hkeep; [|exact Hok].
    apply forallb_forall. intros t _. destruct t; reflexivity. }
  destruct o.
  - unfold deferred. destruct Hok' as [Hc _].
    now rewrite (call_all_ok RunOnClose _ Hc).
  - contradiction.
  - exfalso. exact (Hnp msg Hok Hnil eq_refl).
Qed.

Lemma failed_read_ends_the_loop_witness :
  In (Rd [] (Some (Failure "EOF")) None)
     [Rd [x01] None None; Rd [] (Some (Failure "EOF")) None; Rd [x02] None None] /\
  fst (fst (readPackets 8
              [Rd [x01] None None; Rd [] (Some (Failure "EOF")) None;
               Rd [x02] None None]
              (set_running true sample))) <> Blocked.
Proof.
  assert (Hin : In (Rd [] (Some (Failure "EOF")) None)
     [Rd [x01] None None; Rd [] (Some (Failure "EOF")) None; Rd [x02] None None]).
  { right. left. reflexivity. }
  split; [exact Hin|].
  exact (proj1 (failed_read_ends_the_loop 8 _ (set_running true sample)
                  [] (Failure "EOF") None Hin)).
Defined.

Lemma read_loop_empty_reads script :
  forall buf s tr,
    running s = true ->
    forallb is_empty_read script = true ->
    read_loop script buf s tr =
    (Blocked, s, tr ++ repeat (ConnRead [] None) (List.length script)).
Proof.
  induction script as [|t rest IH]; intros buf s tr Hr Hall; simpl.
  - now rewrite Hr, app_nil_r.
  - simpl in Hall. apply andb_true_iff in Hall as [Ht Hrest].
    destruct t as [data err answer|c]; [|discriminate].
    destruct data as [|b data]; [|discriminate].
    destruct err as [e|]; [discriminate|].
    rewrite Hr. unfold read_turn, conn_Read. simpl.
    rewrite IH by assumption. now rewrite <- app_assoc.
Qed.

(** X15: reads that deliver no byte do not end the loop and call nobody:
    after any number of them the reader is still in its loop, the session
    is as it was, and the trace holds the reads and nothing else. *)
Theorem empty_reads_keep_the_loop_going
    (readSize : nat) (script : list RTick) (s : Session) :
  running s = true ->
  onMessageListener s <> nilFunc ->
  forallb is_empty_read script = true ->
  readPackets readSize script s =
  (Blocked, s, repeat (ConnRead [] None) (List.length script)).
Proof.
  intros Hr Hl Hall. unfold readPackets.
  destruct (onMessageListener s); [contradiction|].
  now rewrite read_loop_empty_reads.
Qed.

Lemma empty_reads_keep_the_loop_going_witness :
  running (set_running true sample) = true /\
  onMessageListener (set_running true sample) <> nilFunc /\
  readPackets 8 [Rd [] None None; Rd [] None (Some (Failure "unused"))]
    (set_running true sample) =
  (Blocked, set_running true sample, [ConnRead [] None; ConnRead [] None]).
Proof.
  assert (Hl : onMessageListener (set_running true sample) <> nilFunc)
    by discriminate.
  split; [reflexivity|]. split; [exact Hl|].
  exact (empty_reads_keep_the_loop_going 8
           [Rd [] None None; Rd [] None (Some (Failure "unused"))]
           (set_running true sample) eq_refl Hl eq_refl).
Defined.

Lemma call_all_within n ev ls :
  (forall i, within n (ev i)) -> Forall (within n) (fst (call_all ev ls)).
Proof.
  intros Hev. induction ls as [|f ls IH]; simpl; [constructor|].
  destruct f as [|i]; [constructor|].
  destruct (call_all ev ls) as [evs ok]. cbn [fst] in *.
  constructor; [apply Hev|exact IH].
Qed.

Lemma call_within n c s : Forall (within n) (snd (call c s)).
Proof.
  destruct c as [v|u|l|l|l|m|ms|]; try constructor.
  simpl. rewrite Closed_events.
  destruct (sessionComponent s); repeat constructor.
Qed.

Lemma read_loop_within script n :
  forall buf s tr,
    List.length buf = n ->
    Forall (within n) tr ->
    Forall (within n) (snd (read_loop script buf s tr)).
Proof.
  induction script as [|t rest IH]; intros buf s tr Hbuf Htr; simpl.
  - destruct (running s); exact Htr.
  - destruct t as [data err answer|c].
    + destruct (running s); [|exact Htr].
      unfold read_turn.
      destruct (conn_Read_lengths data buf) as (H1 & H2 & H3 & H4).
      destruct (conn_Read data buf) as [k buf']. cbn [fst snd] in *.
      assert (Hread : within n (ConnRead (firstn k data) err)).
      { simpl. lia. }
      destruct err as [e|].
      * pose proof (call_all_within n RunOnError (onErrorListeners s)
                      (fun i => I)) as Hev.
        destruct (call_all RunOnError (onErrorListeners s)) as [evs [|]];
          cbn [fst snd] in *; apply Forall_app; split; try exact Htr;
          constructor; assumption.
      * destruct (k <? 1)%nat eqn:Hk.
        -- apply IH; [lia|]. apply Forall_app. split; [exact Htr|].
           constructor; [exact Hread|constructor].
        -- apply Nat.ltb_ge in Hk.
           destruct (onMessageListener s) as [|l].
           ++ cbn [snd]. apply Forall_app. split; [exact Htr|].
              constructor; [exact Hread|constructor].
           ++ assert (Hview : within n (Dispatch l (firstn k buf'))).
              { simpl. lia. }
              destruct answer.
              ** cbn [snd]. apply Forall_app. split; [exact Htr|].
                 constructor; [exact Hread|].
                 constructor; [exact Hview|constructor].
              ** apply IH; [lia|]. apply Forall_app. split; [exact Htr|].
                 constructor; [exact Hread|].
                 constructor; [exact Hview|constructor].
    + pose proof (call_within n c s) as Hev.
      destruct (call c s) as [s' evs]. cbn [snd] in Hev.
      apply IH; [exact Hbuf|]. apply Forall_app. split; assumption.
Qed.

Lemma within_payloads n tr :
  Forall (within n) tr ->
  Forall (fun got => (List.length got <= n)%nat) (read_payloads tr) /\
  Forall (fun view => (1 <= List.length view <= n)%nat) (dispatched tr).
Proof.
  induction 1 as [|ev tr Hev Htr [IH1 IH2]]; [split; constructor|].
  destruct ev; simpl in *; split; try assumption; constructor; assumption.
Qed.

(** X16: the buffer bounds what a read delivers and what a listener sees:
    every read of readPackets delivers at most readSize bytes, every view
    passed to the message listener has between 1 and readSize bytes, and
    with a buffer of size 0 nothing is ever dispatched. *)
Theorem reads_fit_the_buffer
    (readSize : nat) (script : list RTick) (s : Session) :
  Forall (fun got => (List.length got <= readSize)%nat)
    (read_payloads (snd (readPackets readSize script s))) /\
  Forall (fun view => (1 <= List.length view <= readSize)%nat)
    (dispatched (snd (readPackets readSize script s))) /\
  (readSize = 0%nat -> dispatched (snd (readPackets readSize script s)) = []).
Proof.
  assert (H : Forall (within readSize) (snd (readPackets readSize script s))).
  { unfold readPackets. destruct (onMessageListener s); [constructor|].
    pose proof (read_loop_within script readSize (make readSize) s []
                  (repeat_length _ _) (Forall_nil _)) as Hloop.
    destruct (read_loop script (make readSize) s []) as [[o s'] tr].
    cbn [snd] in Hloop.
    assert (Hdef : Forall (within readSize) (snd (deferred o s' tr))).
    { unfold deferred.
      pose proof (call_all_within readSize RunOnClose (onCloseListeners s')
                    (fun i => I)) as Hev.
      destruct (call_all RunOnClose (onCloseListeners s')) as [evs [|]];
        cbn [fst snd] in *; repeat (apply Forall_app; split); try assumption.
      repeat constructor. }
    destruct o; assumption. }
  destruct (within_payloads _ _ H) as [H1 H2].
  split; [exact H1|]. split; [exact H2|].
  intros Hz.
  destruct (dispatched (snd (readPackets readSize script s))) as [|v vs];
    [reflexivity|].
  inversion H2 as [|? ? Hv Hvs]; subst. lia.
Qed.

Lemma after_none p tr : existsb p tr = false -> after p tr = [].
Proof.
  induction tr as [|e tr IH]; simpl; [reflexivity|].
  destruct (p e); [discriminate|exact IH].
Qed.

Lemma after_app_hit p tr more :
  existsb p tr = true -> after p (tr ++ more) = after p tr ++ more.
Proof.
  induction tr as [|e tr IH]; simpl; [discriminate|].
  destruct (p e); [reflexivity|exact IH].
Qed.

Lemma after_app_miss p tr more :
  existsb p tr = false -> after p (tr ++ more) = after p more.
Proof.
  induction tr as [|e tr IH]; simpl; [reflexivity|].
  destruct (p e); [discriminate|exact IH].
Qed.

Lemma call_all_cleanup ev ls :
  (forall i, cleanup_event (ev i) = true /\ failed_read (ev i) = false) ->
  forallb cleanup_event (fst (call_all ev ls)) = true /\
  existsb failed_read (fst (call_all ev ls)) = false.
Proof.
  intros Hev. induction ls as [|f ls IH]; simpl; [split; reflexivity|].
  destruct f as [|i]; [split; reflexivity|].
  destruct (call_all ev ls) as [evs ok]. cbn [fst] in *. simpl.
  destruct (Hev i) as [H1 H2]. destruct IH as [IH1 IH2].
  now rewrite H1, H2, IH1, IH2.
Qed.

Lemma call_no_failed_read c s : existsb failed_read (snd (call c s)) = false.
Proof.
  destruct c as [v|u|l|l|l|m|ms|]; try reflexivity.
  simpl. rewrite Closed_events. destruct (sessionComponent s); reflexivity.
Qed.

Lemma read_loop_after_failure script :
  forall buf s tr,
    existsb failed_read tr = false ->
    forallb cleanup_event (after failed_read (snd (read_loop script buf s tr)))
      = true.
Proof.
  induction script as [|t rest IH]; intros buf s tr Htr; simpl.
  - destruct (running s); now rewrite after_none.
  - destruct t as [data err answer|c].
    + destruct (running s); [|now rewrite after_none].
      unfold read_turn. destruct (conn_Read data buf) as [n buf'].
      destruct err as [e|].
      * destruct (call_all_cleanup RunOnError (onErrorListeners s))
          as [Hc _]; [intros i; split; reflexivity|].
        destruct (call_all RunOnError (onErrorListeners s)) as [evs [|]];
          cbn [fst snd] in *; now rewrite after_app_miss.
      * destruct (n <? 1)%nat.
        -- apply IH. now rewrite existsb_app, Htr.
        -- destruct (onMessageListener s) as [|l].
           ++ cbn [snd]. rewrite after_none; [reflexivity|].
              now rewrite existsb_app, Htr.
           ++ destruct answer.
              ** cbn [snd]. rewrite after_none; [reflexivity|].
                 now rewrite existsb_app, Htr.
              ** apply IH. now rewrite existsb_app, Htr.
    + pose proof (call_no_failed_read c s) as Hno.
      destruct (call c s) as [s' evs]. cbn [snd] in Hno.
      apply IH. now rewrite existsb_app, Htr, Hno.
Qed.

(** X17: after a read has failed, readPackets does not read again, calls
    no message listener and touches nothing else: what follows the failed
    read in its trace are listener calls and the closing of the connection
    only. *)
Theorem nothing_but_cleanup_after_a_failed_read
    (readSize : nat) (script : list RTick) (s : Session) :
  forallb cleanup_event
    (after failed_read (snd (readPackets readSize script s))) = true /\
  reads (after failed_read (snd (readPackets readSize script s))) = 0%nat /\
  dispatched (after failed_read (snd (readPackets readSize script s))) = [].
Proof.
  assert (H : forallb cleanup_event
                (after failed_read (snd (readPackets readSize script s))) = true).
  { unfold readPackets. destruct (onMessageListener s); [reflexivity|].
    pose proof (read_loop_after_failure script (make readSize) s [] eq_refl)
      as Hloop.
    destruct (read_loop script (make readSize) s []) as [[o s'] tr].
    cbn [snd] in Hloop.
    assert (Hdef : forallb cleanup_event
                     (after failed_read (snd (deferred o s' tr))) = true).
    { unfold deferred.
      destruct (call_all_cleanup RunOnClose (onCloseListeners s'))
        as [Hc Hf]; [intros i; split; reflexivity|].
      destruct (call_all RunOnClose (onCloseListeners s')) as [evs ok].
      cbn [fst] in *.
      assert (Hmore : forall more,
                forallb cleanup_event more = true ->
                existsb failed_read more = false ->
                forallb cleanup_event (after failed_read (tr ++ more)) = true).
      { intros more Hm1 Hm2.
        destruct (existsb failed_read tr) eqn:E.
        - rewrite after_app_hit by exact E. now rewrite forallb_app, Hloop.
        - rewrite after_app_miss by exact E. now rewrite after_none. }
      destruct ok; cbn [snd]; apply Hmore; try assumption.
      - now rewrite forallb_app, Hc.
      - now rewrite existsb_app, Hf. }
    destruct o; assumption. }
  split; [exact H|].
  revert H. generalize (after failed_read (snd (readPackets readSize script s))).
  intros evs. induction evs as [|ev evs IH]; intros H; [split; reflexivity|].
  simpl in H. apply andb_true_iff in H as [Hev Hevs].
  destruct (IH Hevs) as [IH1 IH2].
  destruct ev; try discriminate; split; assumption.
Qed.

Lemma read_loop_frame script :
  forall buf s tr,
    forallb is_Rd script = true ->
    snd (fst (read_loop script buf s tr)) = s \/
    (snd (fst (read_loop script buf s tr)) = set_running false s /\
     existsb failed_read (snd (read_loop script buf s tr)) = true).
Proof.
  induction script as [|t rest IH]; intros buf s tr Hall; simpl.
  - destruct (running s); left; reflexivity.
  - simpl in Hall. apply andb_true_iff in Hall as [Ht Hrest].
    destruct t as [data err answer|c]; [|discriminate].
    destruct (running s); [|left; reflexivity].
    unfold read_turn. destruct (conn_Read data buf) as [n buf'].
    destruct err as [e|].
    + destruct (call_all RunOnError (onErrorListeners s)) as [evs [|]];
        cbn [fst snd]; [right|left; reflexivity].
      split; [reflexivity|].
      rewrite existsb_app. simpl. apply orb_true_r.
    + destruct (n <? 1)%nat; [now apply IH|].
      destruct (onMessageListener s); [left; reflexivity|].
      destruct answer; [left; reflexivity|now apply IH].
Qed.

(** X18: left to itself (no other context calls the session meanwhile),
    readPackets changes nothing of the session but the running flag, which
    it clears; and it clears it only when a read failed: a rejected message
    or a listener that is missing ends the loop with the session as it
    was. *)
Theorem readPackets_only_clears_running
    (readSize : nat) (script : list RTick) (s : Session) :
  forallb is_Rd script = true ->
  (snd (fst (readPackets readSize script s)) = s \/
   snd (fst (readPackets readSize script s)) = set_running false s) /\
  (existsb failed_read (snd (readPackets readSize script s)) = false ->
   snd (fst (readPackets readSize script s)) = s).
Proof.
  intros Hall. unfold readPackets.
  destruct (onMessageListener s); [split; [left|]; reflexivity|].
  pose proof (read_loop_frame script (make readSize) s [] Hall) as Hloop.
  destruct (read_loop script (make readSize) s []) as [[o s'] tr].
  cbn [fst snd] in Hloop.
  assert (Hdef : snd (fst (deferred o s' tr)) = s' /\
                 (existsb failed_read (snd (deferred o s' tr)) = false ->
                  existsb failed_read tr = false)).
  { split; [apply deferred_session|].
    unfold deferred.
    destruct (call_all RunOnClose (onCloseListeners s')) as [evs [|]];
      cbn [snd]; rewrite existsb_app; intros H;
      apply orb_false_iff in H as [H _]; exact H. }
  destruct Hdef as [Hs Hf].
  assert (Hgoal :
    forall s2 tr2, s2 = s' -> (existsb failed_read tr2 = false ->
                               existsb failed_read tr = false) ->
    (s2 = s \/ s2 = set_running false s) /\
    (existsb failed_read tr2 = false -> s2 = s)).
  { intros s2 tr2 -> Himp. destruct Hloop as [->|[-> Hex]].
    - split; [left; reflexivity|reflexivity].
    - split; [right; reflexivity|].
      intros H. rewrite (Himp H) in Hex. discriminate. }
  destruct o; cbn [fst snd]; apply Hgoal; auto.
Qed.

Lemma readPackets_only_clears_running_witness :
  forallb is_Rd [Rd [x01] None (Some (Failure "bad"))] = true /\
  snd (fst (readPackets 8 [Rd [x01] None (Some (Failure "bad"))]
              (set_running true sample))) = set_running true sample.
Proof.
  split; [reflexivity|].
  apply (proj2 (readPackets_only_clears_running 8
                  [Rd [x01] None (Some (Failure "bad"))]
                  (set_running true sample) eq_refl)).
  reflexivity.
Defined.


(** ** Start *)

Lemma written_app tr1 tr2 : written (tr1 ++ tr2) = written tr1 ++ written tr2.
Proof. apply flat_map_app. Qed.

Lemma no_io_counts evs :
  forallb no_io evs = true ->
  written evs = [] /\ reads evs = 0%nat /\ dispatched evs = [] /\
  existsb failed_write evs = false.
Proof.
  induction evs as [|ev evs IH]; simpl; [repeat split|].
  intros H. apply andb_true_iff in H as [Hev Hevs].
  destruct (IH Hevs) as (H1 & H2 & H3 & H4).
  destruct ev; try discriminate; repeat split; assumption.
Qed.

Lemma cleanup_is_no_io evs :
  forallb cleanup_event evs = true ->
  forallb no_io evs = true /\ existsb stops evs = false.
Proof.
  induction evs as [|ev evs IH]; simpl; [split; reflexivity|].
  intros H. apply andb_true_iff in H as [Hev Hevs].
  destruct (IH Hevs) as [IH1 IH2].
  destruct ev; try discriminate; simpl; split; assumption.
Qed.

Lemma call_no_io c s :
  forallb no_io (snd (call c s)) = true /\
  (existsb stops (snd (call c s)) = true -> running (fst (call c s)) = false).
Proof.
  destruct c as [v|u|l|l|l|m|ms|]; try (split; [reflexivity|discriminate]).
  simpl. rewrite Closed_events. destruct (Closed_fields s) as (_ & Hr & _).
  destruct (sessionComponent s); split; try reflexivity; intros _; exact Hr.
Qed.

Lemma no_io_after p evs :
  forallb no_io evs = true -> forallb no_io (after p evs) = true.
Proof.
  induction evs as [|ev evs IH]; simpl; [reflexivity|].
  intros H. apply andb_true_iff in H as [Hev Hevs].
  destruct (p ev); [exact Hevs|now apply IH].
Qed.

Lemma error_listeners_cleanup s :
  forallb cleanup_event (fst (call_all RunOnError (onErrorListeners s))) = true.
Proof.
  now destruct (call_all_cleanup RunOnError (onErrorListeners s)) as [Hc _];
    [intros i; split; reflexivity|].
Qed.

(** The way out of the reader goroutine: listener calls and the closing of
    the connection behind the events of its last turn; the session is the
    one the turn left, nothing else of the world changes, and a panic of
    the turn stays a panic. *)
Lemma leave_shape o s evs w :
  exists closes,
    trace (snd (leave o s evs w)) = trace w ++ evs ++ closes /\
    forallb cleanup_event closes = true /\
    sess (snd (leave o s evs w)) = s /\
    reader (snd (leave o s evs w)) = Gone /\
    writer (snd (leave o s evs w)) = writer w /\
    waiting (snd (leave o s evs w)) = waiting w /\
    ready (snd (leave o s evs w)) = ready w /\
    fst (leave o s evs w) <> Returned /\
    (forall msg, o = Panicked msg -> exists msg', fst (leave o s evs w) = Panicked msg').
Proof.
  unfold leave, deferred.
  destruct (call_all_cleanup RunOnClose (onCloseListeners s)) as [Hc _];
    [intros i; split; reflexivity|].
  destruct (call_all RunOnClose (onCloseListeners s)) as [cl [|]];
    cbn [fst snd reader writer waiting ready sess trace] in *.
  - exists (cl ++ [ConnClose]). repeat split.
    + now rewrite forallb_app, Hc.
    + destruct o; discriminate.
    + intros msg ->. eauto.
  - exists cl. repeat split.
    + exact Hc.
    + discriminate.
    + intros msg _. eauto.
Qed.

(** One turn of the reader: it reads once and calls the message listener
    at most once, writes nothing, leaves the send channel alone, and never
    sets the running flag; behind a failed read come error listeners only,
    and the flag is false then unless a listener panicked. *)
Lemma read_turn_traffic data err answer buf s :
  match read_turn data err answer buf s with
  | Continue s' _ evs =>
      s' = s /\ existsb stops evs = false /\
      written evs = [] /\ reads evs = 1%nat /\
      (List.length (dispatched evs) <= 1)%nat /\
      existsb failed_write evs = false
  | Leave o s' evs =>
      sendChan s' = sendChan s /\
      (running s = false -> running s' = false) /\
      (existsb stops evs = true ->
       running s' = false \/ exists msg, o = Panicked msg) /\
      forallb no_io (after stops evs) = true /\
      written evs = [] /\ reads evs = 1%nat /\
      (List.length (dispatched evs) <= 1)%nat /\
      existsb failed_write evs = false
  end.
Proof.
  unfold read_turn. destruct (conn_Read data buf) as [n buf'].
  destruct err as [e|].
  - pose proof (error_listeners_cleanup s) as Hno.
    apply cleanup_is_no_io in Hno as [Hno _].
    destruct (call_all RunOnError (onErrorListeners s)) as [evs [|]];
      cbn [fst] in Hno; destruct (no_io_counts evs Hno) as (H1 & H2 & H3 & H4);
      cbn [after stops existsb failed_write orb];
      (split; [reflexivity|]); (split; [tauto|]);
      (split; [intros _; eauto|]); (split; [exact Hno|]);
      change (ConnRead (firstn n data) (Some e) :: evs)
        with ([ConnRead (firstn n data) (Some e)] ++ evs);
      rewrite written_app, reads_app, dispatched_app, H1, H2, H3;
      repeat split; simpl; try lia; exact H4.
  - destruct (n <? 1)%nat; [repeat split; simpl; lia|].
    destruct (onMessageListener s) as [|l].
    + repeat split; first [discriminate|tauto|simpl; lia].
    + destruct answer; repeat split; first [discriminate|tauto|simpl; lia].
Qed.

Lemma call_stays_stopped c s :
  running s = false -> running (fst (call c s)) = false.
Proof. intros H. now destruct (call_not_running c s H). Qed.

Lemma SendBatch_running batchMsg s : running (SendBatch batchMsg s) = running s.
Proof. now destruct (SendBatch_frame batchMsg s) as (_ & H & _). Qed.

Ltac done_here :=
  intros;
  first [ reflexivity | discriminate | assumption | tauto
        | simpl in *; lia | simpl in *; congruence | solve [eauto] ].

(** What one step of the world adds to the trace.  Nothing but listener
    calls and the closing follows a stopping event within the step, and the
    running flag is false behind it unless the process panicked.  On a
    session that is not running a step keeps the flag, and writes or reads
    only what was under way: the payload the loop of Start holds, the read
    the reader waits in.  A failed write is followed by Closed within the
    step, with the loop back at its test. *)
Lemma step_traffic t w :
  exists evs,
    trace (snd (step t w)) = trace w ++ evs /\
    forallb no_io (after stops evs) = true /\
    (existsb stops evs = true ->
     running (sess (snd (step t w))) = false \/
     exists msg, fst (step t w) = Panicked msg) /\
    (running (sess w) = false ->
     running (sess (snd (step t w))) = false /\
     (List.length (written evs) + pending_writes (writer (snd (step t w)))
      <= pending_writes (writer w))%nat /\
     (reads evs + pending_reads (reader (snd (step t w)))
      <= pending_reads (reader w))%nat /\
     (List.length (dispatched evs) <= reads evs)%nat) /\
    (existsb failed_write evs = true ->
     running (sess (snd (step t w))) = false /\
     status (sess (snd (step t w))) = Const.Closed /\
     writer (snd (step t w)) = AtTest /\
     written (after failed_write evs) = []).
Proof.
  destruct t as [data err answer|werr|c|i]; simpl.
  - unfold reader_step. destruct (reader w) as [readSize|buf|buf|] eqn:Hrd.
    + exists []. rewrite app_nil_r.
      destruct (onMessageListener (sess w));
        cbn [fst snd trace sess writer reader pending_reads];
        repeat split; done_here.
    + destruct (running (sess w)) eqn:Hrun.
      * exists []. rewrite app_nil_r.
        cbn [fst snd trace sess writer reader].
        repeat split; done_here.
      * destruct (leave_shape Returned (sess w) [] w)
          as (closes & Htr & Hcl & Hs & Hr & Hw & _).
        destruct (cleanup_is_no_io closes Hcl) as [Hno Hstop].
        destruct (no_io_counts closes Hno) as (H1 & H2 & H3 & H4).
        exists closes. rewrite Htr, Hs, Hr, Hw, H1, H2, H3, H4, Hstop.
        simpl. repeat split; try done_here.
        now apply no_io_after.
    + pose proof (read_turn_traffic data err answer buf (sess w)) as Ht.
      destruct (read_turn data err answer buf (sess w)) as [s' buf' evs|o s' evs].
      * destruct Ht as (-> & Hstop & H1 & H2 & H3 & H4).
        exists evs. cbn [fst snd trace sess writer reader pending_reads].
        rewrite H1, H2, H4, (after_none _ _ Hstop), Hstop.
        repeat split; done_here.
      * destruct Ht as (Hch & Hrun & Hstop & Hafter & H1 & H2 & H3 & H4).
        destruct (leave_shape o s' evs w)
          as (closes & Htr & Hcl & Hs & Hr & Hw & _ & _ & _ & Hpanic).
        destruct (cleanup_is_no_io closes Hcl) as [Hno Hnostop].
        destruct (no_io_counts closes Hno) as (C1 & C2 & C3 & C4).
        exists (evs ++ closes).
        rewrite Htr, Hs, Hr, Hw, written_app, reads_app, dispatched_app,
          !existsb_app, H1, H2, H4, C1, C2, C3, C4, Hnostop.
        rewrite orb_false_r. simpl.
        split; [reflexivity|]. split.
        { destruct (existsb stops evs) eqn:He.
          - rewrite after_app_hit by exact He.
            now rewrite forallb_app, Hafter, Hno.
          - rewrite after_app_miss by exact He. now apply no_io_after. }
        split.
        { intros He. destruct (Hstop He) as [Hf|[msg ->]]; [now left|].
          right. now apply (Hpanic msg). }
        split; [|discriminate].
        intros Hf. split; [now apply Hrun|]. rewrite app_nil_r. lia.
    + exists []. rewrite app_nil_r. cbn [fst snd]. rewrite Hrd.
      repeat split; done_here.
  - unfold writer_step. destruct (writer w) as [| |msg] eqn:Hwr.
    + exists []. rewrite app_nil_r.
      destruct (running (sess w)) eqn:Hrun;
        cbn [fst snd trace sess writer reader]; rewrite ?Hwr;
        repeat split; done_here.
    + exists []. rewrite app_nil_r.
      destruct (sendChan (sess w)) as [|msg queue];
        cbn [fst snd trace sess writer reader]; rewrite ?Hwr;
        repeat split; try done_here.
      all: destruct (sess w); done_here.
    + destruct werr as [e|].
      * pose proof (Closed_events (sess w)) as Hev.
        destruct (Closed_fields (sess w)) as (Hst & Hru & _).
        destruct (Closed (sess w)) as [s' evs]. cbn [fst snd] in *.
        exists (ConnWrite msg (Some e) :: evs).
        cbn [fst snd trace sess writer reader]. subst evs.
        destruct (sessionComponent (sess w)); repeat split; done_here.
      * exists [ConnWrite msg None].
        cbn [fst snd trace sess writer reader]. repeat split; done_here.
  - unfold other_step.
    destruct (call_no_io c (sess w)) as [Hno Hstop].
    pose proof (call_stays_stopped c (sess w)) as Hstay.
    destruct (call c (sess w)) as [s' evs]. cbn [fst snd] in *.
    destruct (no_io_counts evs Hno) as (H1 & H2 & H3 & H4).
    exists evs. cbn [fst snd trace sess writer reader].
    rewrite H1, H2, H3, H4. repeat split; try done_here.
    now apply no_io_after.
  - unfold sender_step. exists [].
    destruct (nth_error (ready w) i) as [batchMsg|];
      cbn [fst snd trace sess writer reader]; rewrite ?app_nil_r;
      rewrite ?SendBatch_running; repeat split; done_here.
Qed.

(** Start returns at the test of its loop only. *)
Lemma step_returned t w :
  fst (step t w) = Returned -> running (sess (snd (step t w))) = false.
Proof.
  destruct t as [data err answer|werr|c|i]; simpl.
  - unfold reader_step. destruct (reader w) as [readSize|buf|buf|].
    + destruct (onMessageListener (sess w)); discriminate.
    + destruct (running (sess w)); [discriminate|].
      intros H. now destruct (leave_shape Returned (sess w) [] w)
        as (_ & _ & _ & _ & _ & _ & _ & _ & Hne & _).
    + destruct (read_turn data err answer buf (sess w)) as [s' buf' evs|o s' evs];
        [discriminate|].
      intros H. now destruct (leave_shape o s' evs w)
        as (_ & _ & _ & _ & _ & _ & _ & _ & Hne & _).
    + discriminate.
  - unfold writer_step. destruct (writer w) as [| |msg].
    + destruct (running (sess w)) eqn:Hrun; [discriminate|]. intros _. exact Hrun.
    + destruct (sendChan (sess w)); discriminate.
    + destruct werr; [destruct (Closed (sess w))|]; discriminate.
  - unfold other_step. destruct (call c (sess w)). discriminate.
  - unfold sender_step. destruct (nth_error (ready w) i); discriminate.
Qed.

Lemma write_loop_outcome script :
  forall w,
    fst (write_loop script w) = Returned ->
    running (sess (snd (write_loop script w))) = false.
Proof.
  induction script as [|t rest IH]; intros w; simpl; [discriminate|].
  pose proof (step_returned t w) as Hstep.
  destruct (step t w) as [o w']. cbn [fst snd] in Hstep.
  destruct o; [exact Hstep|now apply IH|discriminate].
Qed.







Lemma step_status t w :
  stick_within not_SetStatus t = true ->
  status (sess w) = Const.Closed ->
  status (sess (snd (step t w))) = Const.Closed.
Proof.
  apply (step_keeps (fun s => status s = Const.Closed) not_SetStatus).
  - intros c s Hc Hs. now apply call_status.
  - intros b s Hs. exact Hs.
  - intros q s Hs. exact Hs.
  - intros s Hs. now destruct (Closed_fields s) as (H & _).
Qed.

Lemma write_loop_failed_write script :
  forall w,
    forallb (stick_within not_SetStatus) script = true ->
    (existsb failed_write (trace w) = true ->
     status (sess w) = Const.Closed /\ running (sess w) = false) ->
    existsb failed_write (trace (snd (write_loop script w))) = true ->
    status (sess (snd (write_loop script w))) = Const.Closed /\
    running (sess (snd (write_loop script w))) = false.
Proof.
  induction script as [|t rest IH]; intros w Hall Hinv; simpl.
  - exact Hinv.
  - simpl in Hall. apply andb_true_iff in Hall as [Ht Hrest].
    destruct (step_traffic t w) as (evs & Htr & _ & _ & Hstay & Hfail).
    pose proof (step_status t w Ht) as Hst.
    assert (Hinv' : existsb failed_write (trace (snd (step t w))) = true ->
                    status (sess (snd (step t w))) = Const.Closed /\
                    running (sess (snd (step t w))) = false).
    { rewrite Htr, existsb_app. intros H. apply orb_true_iff in H as [H|H].
      - destruct (Hinv H) as [H1 H2]. split; [now apply Hst|now apply Hstay].
      - destruct (Hfail H) as (H1 & H2 & _). split; assumption. }
    destruct (step t w) as [o w']. cbn [fst snd] in *.
    destruct o; [exact Hinv'|now apply IH|exact Hinv'].
Qed.

(** *** When Start returns *)

(** What a call does to the send channel: a call that sends on a running
    session hands over its first payload and waits with the rest; every
    other call leaves the channel alone. *)
Lemma SendBatch_first batchMsg s :
  sendChan (SendBatch batchMsg s) =
    sendChan s ++ (if running s then firstn 1 batchMsg else []) /\
  SendBatch_rest batchMsg s =
    (if running s then
       match batchMsg with [] => None | _ :: rest => Some rest end
     else None).
Proof.
  destruct (running s) eqn:Hrun.
  - destruct batchMsg as [|msg rest]; simpl.
    + now rewrite app_nil_r.
    + unfold Send. rewrite Hrun. split; reflexivity.
  - rewrite (SendBatch_stopped batchMsg s Hrun), app_nil_r.
    split; [reflexivity|].
    revert s Hrun. induction batchMsg as [|msg rest IH]; intros s Hrun; simpl.
    + reflexivity.
    + rewrite Hrun. unfold Send. rewrite Hrun. simpl. now apply IH.
Qed.

Lemma call_channel c s :
  written (snd (call c s)) = [] /\
  sendChan (fst (call c s)) =
    sendChan s ++ (if running s then firstn 1 (call_payloads c) else []) /\
  blocked_rest c s =
    (if running s then
       match call_payloads c with [] => None | _ :: rest => Some rest end
     else None).
Proof.
  destruct c as [v|u|l|l|l|m|ms|]; simpl.
  - destruct (running s); rewrite app_nil_r; repeat split.
  - unfold Bind. destruct (running s), (u <? 1); rewrite app_nil_r; repeat split.
  - unfold OnClose.
    destruct (running s), (negb (is_nil l)); rewrite app_nil_r; repeat split.
  - unfold OnError.
    destruct (running s), (negb (is_nil l)); rewrite app_nil_r; repeat split.
  - unfold OnMessage.
    destruct (running s), (negb (is_nil l)); rewrite app_nil_r; repeat split.
  - unfold Send. destruct (running s); simpl; rewrite ?app_nil_r; repeat split.
  - split; [reflexivity|apply SendBatch_first].
  - rewrite Closed_events. split; [destruct (sessionComponent s); reflexivity|].
    split; [|destruct (running s); reflexivity].
    destruct (running s); rewrite app_nil_r;
      destruct s as [st ru si ui fr [cc|] lt ch oc oe om]; reflexivity.
Qed.

(** The reader goroutine writes nothing and leaves the send channel, the
    loop of Start and the senders alone. *)
Lemma reader_step_channel data err answer w :
  written (trace (snd (reader_step data err answer w))) = written (trace w) /\
  sendChan (sess (snd (reader_step data err answer w))) = sendChan (sess w) /\
  writer (snd (reader_step data err answer w)) = writer w /\
  waiting (snd (reader_step data err answer w)) = waiting w /\
  ready (snd (reader_step data err answer w)) = ready w.
Proof.
  unfold reader_step. destruct (reader w) as [readSize|buf|buf|].
  - destruct (onMessageListener (sess w)); repeat split.
  - destruct (running (sess w)); [repeat split|].
    destruct (leave_shape Returned (sess w) [] w)
      as (closes & Htr & Hcl & Hs & _ & Hw & Hwait & Hready & _).
    destruct (cleanup_is_no_io closes Hcl) as [Hno _].
    destruct (no_io_counts closes Hno) as (H1 & _).
    rewrite Htr, Hs, Hw, Hwait, Hready, !written_app, H1. simpl.
    rewrite app_nil_r. repeat split.
  - pose proof (read_turn_traffic data err answer buf (sess w)) as Ht.
    destruct (read_turn data err answer buf (sess w)) as [s' buf' evs|o s' evs].
    + destruct Ht as (-> & _ & H1 & _).
      cbn [fst snd trace sess writer waiting ready].
      rewrite written_app, H1, app_nil_r. repeat split.
    + destruct Ht as (Hch & _ & _ & _ & H1 & _).
      destruct (leave_shape o s' evs w)
        as (closes & Htr & Hcl & Hs & _ & Hw & Hwait & Hready & _).
      destruct (cleanup_is_no_io closes Hcl) as [Hno _].
      destruct (no_io_counts closes Hno) as (C1 & _).
      rewrite Htr, Hs, Hw, Hwait, Hready, !written_app, H1, C1, Hch. simpl.
      rewrite app_nil_r. repeat split.
  - repeat split.
Qed.

Lemma reader_step_outcome data err answer w :
  fst (reader_step data err answer w) <> Returned.
Proof.
  unfold reader_step. destruct (reader w) as [readSize|buf|buf|].
  - destruct (onMessageListener (sess w)); discriminate.
  - destruct (running (sess w)); [discriminate|].
    now destruct (leave_shape Returned (sess w) [] w)
      as (closes & _ & _ & _ & _ & _ & _ & _ & Hne & _).
  - destruct (read_turn data err answer buf (sess w)) as [s' buf' evs|o s' evs];
      [discriminate|].
    now destruct (leave_shape o s' evs w)
      as (closes & _ & _ & _ & _ & _ & _ & _ & Hne & _).
  - discriminate.
Qed.

(** While nobody sends: a step leaves an empty channel empty, writes only
    the payload the loop of Start holds, and a loop that waits in the
    select goes on waiting. *)
Lemma step_no_send t w :
  no_send t = true ->
  sendChan (sess w) = [] -> waiting w = [] -> ready w = [] ->
  sendChan (sess (snd (step t w))) = [] /\
  waiting (snd (step t w)) = [] /\
  ready (snd (step t w)) = [] /\
  written (trace (snd (step t w))) ++ in_hand (writer (snd (step t w))) =
    written (trace w) ++ in_hand (writer w) /\
  (writer w = InSelect ->
   writer (snd (step t w)) = InSelect /\ fst (step t w) <> Returned).
Proof.
  intros Ht Hch Hwait Hready.
  destruct t as [data err answer|werr|c|i]; simpl.
  - destruct (reader_step_channel data err answer w)
      as (H1 & H2 & H3 & H4 & H5).
    rewrite H1, H2, H3, H4, H5. repeat split; try assumption.
    apply reader_step_outcome.
  - unfold writer_step. destruct (writer w) as [| |msg] eqn:Hwr.
    + destruct (running (sess w)); cbn [fst snd trace sess writer waiting ready];
        rewrite ?Hwr; repeat split; try assumption; discriminate.
    + rewrite Hch. cbn [fst snd]. rewrite Hwr.
      repeat split; try assumption; discriminate.
    + destruct werr as [e|].
      * pose proof (Closed_events (sess w)) as Hev.
        assert (Hsame : sendChan (fst (Closed (sess w))) = sendChan (sess w))
          by (destruct (sess w) as [st ru si ui fr [cc|] lt ch oc oe om];
              reflexivity).
        destruct (Closed (sess w)) as [s' evs]. cbn [fst snd] in *. subst evs.
        cbn [trace sess writer waiting ready in_hand].
        rewrite Hsame, written_app.
        destruct (sessionComponent (sess w)); simpl; rewrite ?app_nil_r;
          repeat split; try assumption; discriminate.
      * cbn [fst snd trace sess writer waiting ready in_hand].
        rewrite written_app. simpl. rewrite app_nil_r.
        repeat split; try assumption; discriminate.
  - unfold other_step. simpl in Ht.
    destruct (call_channel c (sess w)) as (H1 & H2 & H3).
    destruct (call c (sess w)) as [s' evs]. cbn [fst snd] in *.
    cbn [trace sess writer waiting ready].
    destruct (call_payloads c) as [|m ms]; [|discriminate].
    rewrite H2, H3, Hch, written_app, H1, app_nil_r, Hwait.
    destruct (running (sess w)); repeat split; try assumption; discriminate.
  - unfold sender_step. rewrite Hready.
    destruct i; simpl; repeat split; try assumption; discriminate.
Qed.

Lemma write_loop_waits script :
  forall w,
    forallb no_send script = true ->
    writer w = InSelect ->
    sendChan (sess w) = [] -> waiting w = [] -> ready w = [] ->
    fst (write_loop script w) <> Returned /\
    written (trace (snd (write_loop script w))) = written (trace w).
Proof.
  induction script as [|t rest IH]; intros w Hall Hwr Hch Hwait Hready; simpl.
  - split; [discriminate|reflexivity].
  - simpl in Hall. apply andb_true_iff in Hall as [Ht Hrest].
    destruct (step_no_send t w Ht Hch Hwait Hready)
      as (H1 & H2 & H3 & H4 & H5).
    destruct (H5 Hwr) as [Hwr' Hne].
    rewrite Hwr, Hwr' in H4. simpl in H4. rewrite !app_nil_r in H4.
    destruct (step t w) as [o w']. cbn [fst snd] in *.
    destruct o; cbn [fst snd].
    + contradiction.
    + destruct (IH w' Hrest Hwr' H1 H2 H3) as [IH1 IH2].
      split; [exact IH1|]. now rewrite IH2.
    + split; [discriminate|exact H4].
Qed.

(** X19: how Start ends.  Start returns only at the test of its loop, so
    only with the running flag false.  The flag going false does not by
    itself make it return: the select of the loop has one case, the receive
    from the send channel, and a loop that got into it waits there for a
    sender whatever happens to the flag.  A Start whose loop is in the
    select with nothing sent before or after never returns and writes
    nothing, also when a read fails or Closed is called meanwhile. *)
Theorem Start_returns_only_when_stopped (script : list STick) (s : Session) :
  (fst (fst (fst (Start script s))) = Returned ->
   running (snd (fst (Start script s))) = false) /\
  (forall werr,
      sendChan s = [] ->
      forallb no_send script = true ->
      fst (fst (fst (Start (SWriter werr :: script) s))) <> Returned /\
      written (snd (Start (SWriter werr :: script) s)) = []).
Proof.
  split.
  - unfold Start.
    pose proof (write_loop_outcome script
                  {| reader := Spawned 2048; writer := AtTest; waiting := [];
                     ready := []; sess := set_running true s; trace := [] |})
      as H.
    destruct (write_loop script _) as [o w]. exact H.
  - intros werr Hch Hall. unfold Start. simpl.
    pose proof (write_loop_waits script
                  {| reader := Spawned 2048; writer := InSelect; waiting := [];
                     ready := []; sess := set_running true s; trace := [] |}
                  Hall eq_refl Hch eq_refl eq_refl) as H.
    destruct (write_loop script _) as [o w]. exact H.
Qed.

Lemma Start_returns_only_when_stopped_witness :
  Start [SWriter None; SReader [] None None; SReader [] None None;
         SReader [] (Some (Failure "reset")) None; SOther CallClosed;
         SWriter None; SWriter None] sample =
    (Blocked, Gone, fst (Closed sample),
     [ConnRead [] (Some (Failure "reset")); RunOnError 1;
      RunOnClose 0; RunOnClose 5; ConnClose; Remove 7]) /\
  running (fst (Closed sample)) = false /\
  fst (fst (fst
    (Start [SWriter None; SReader [] None None; SReader [] None None;
            SReader [] (Some (Failure "reset")) None; SOther CallClosed;
            SWriter None; SWriter None] sample))) <> Returned.
Proof.
  split; [reflexivity|]. split; [reflexivity|].
  exact (proj1 (proj2 (Start_returns_only_when_stopped
           [SReader [] None None; SReader [] None None;
            SReader [] (Some (Failure "reset")) None; SOther CallClosed;
            SWriter None; SWriter None] sample) None eq_refl eq_refl)).
Defined.

(** *** Traffic after the session has stopped *)


(** The bounds are reached: a payload received before Closed is written
    after it, and a read under way when Closed is called still returns and
    is handed to the message listener. *)
Example traffic_after_Closed :
  snd (Start [SOther (CallSend [x01]); SWriter None; SWriter None;
              SReader [] None None; SReader [] None None;
              SOther CallClosed;
              SReader [x02] None None; SWriter None; SWriter None] sample) =
    [Remove 7; ConnRead [x02] None; Dispatch 9 [x02]; ConnWrite [x01] None] /\
  fst (fst (fst
    (Start [SOther (CallSend [x01]); SWriter None; SWriter None;
            SReader [] None None; SReader [] None None;
            SOther CallClosed;
            SReader [x02] None None; SWriter None; SWriter None] sample))) =
    Returned.
Proof. split; reflexivity. Qed.

(** *** A failed write *)

(** X22: a write that fails closes the session: if conn.Write reported an
    error in a run of Start, the session ends up with status Closed and not
    running, as long as no other context calls SetStatus meanwhile. *)
Theorem failed_write_closes_the_session (script : list STick) (s : Session) :
  forallb (stick_within not_SetStatus) script = true ->
  existsb failed_write (snd (Start script s)) = true ->
  status (snd (fst (Start script s))) = Const.Closed /\
  running (snd (fst (Start script s))) = false.
Proof.
  intros Hall H. unfold Start in *.
  pose proof (write_loop_failed_write script
                {| reader := Spawned 2048; writer := AtTest; waiting := [];
                   ready := []; sess := set_running true s; trace := [] |}
                Hall) as Hloop.
  destruct (write_loop script _) as [o w]. cbn [fst snd] in *.
  apply Hloop; [discriminate|exact H].
Qed.

Lemma failed_write_closes_the_session_witness :
  existsb failed_write
    (snd (Start [SOther (CallSend [x01]); SWriter None; SWriter None;
                 SWriter (Some (Failure "reset"));
                 SOther (CallSend [x02]); SWriter None] sample)) = true /\
  status
    (snd (fst (Start [SOther (CallSend [x01]); SWriter None; SWriter None;
                      SWriter (Some (Failure "reset"));
                      SOther (CallSend [x02]); SWriter None] sample)))
    = Const.Closed /\
  running
    (snd (fst (Start [SOther (CallSend [x01]); SWriter None; SWriter None;
                      SWriter (Some (Failure "reset"));
                      SOther (CallSend [x02]); SWriter None] sample)))
    = false.
Proof.
  split; [reflexivity|].
  exact (failed_write_closes_the_session
           [SOther (CallSend [x01]); SWriter None; SWriter None;
            SWriter (Some (Failure "reset"));
            SOther (CallSend [x02]); SWriter None] sample eq_refl eq_refl).
Defined.

(** *** The order of the writes *)








(** Two senders and a failed write: the payloads come out in the order the
    channel took them, the failed one included. *)
Example writes_in_channel_order :
  written
    (snd (Start [SWriter None; SOther (CallSend [x01]); SOther (CallSend [x02]);
                 SWriter None; SWriter None; SWriter None; SWriter None;
                 SWriter (Some (Failure "reset"))] sample)) =
  [[x01]; [x02]].
Proof. reflexivity. Qed.

(** A batch and a Send of another context interleave: the Send gets into
    the channel while the batch waits behind its first payload, and is
    written between the two payloads of the batch. *)
Example batch_interleaves_with_Send :
  written
    (snd (Start [SWriter None; SOther (CallSendBatch [[x01]; [x03]]);
                 SOther (CallSend [x02]); SWriter None; SSender 0;
                 SWriter None; SWriter None; SWriter None; SWriter None;
                 SWriter None; SWriter None; SWriter None] sample)) =
  [[x01]; [x02]; [x03]].
Proof. reflexivity. Qed.

(** *** A batch *)









(** A batch of three on a running session: the call hands over the first
    payload only; the second gets to the channel once the loop of Start has
    received the first; with enough steps the whole batch is written in
    order; and after a Closed on the way the sender drops what it has left. *)
Example batch_step_by_step :
  sendChan
    (snd (fst (Start [SWriter None;
                      SOther (CallSendBatch [[x01]; [x02]; [x03]])] sample)))
    = [[x01]] /\
  sendChan
    (snd (fst (Start [SWriter None;
                      SOther (CallSendBatch [[x01]; [x02]; [x03]]);
                      SWriter None; SSender 0] sample)))
    = [[x02]] /\
  snd (Start [SWriter None; SOther (CallSendBatch [[x01]; [x02]; [x03]]);
              SWriter None; SSender 0; SWriter None; SWriter None;
              SWriter None; SSender 0; SWriter None; SWriter None;
              SWriter None; SWriter None; SWriter None] sample)
    = [ConnWrite [x01] None; ConnWrite [x02] None; ConnWrite [x03] None] /\
  snd (Start [SWriter None; SOther (CallSendBatch [[x01]; [x02]; [x03]]);
              SWriter None; SSender 0; SWriter None; SWriter None;
              SWriter None; SOther CallClosed; SSender 0; SWriter None;
              SWriter None; SWriter None] sample)
    = [ConnWrite [x01] None; Remove 7; ConnWrite [x02] None].
Proof. repeat split. Qed.
